(** * Tiered memory store (the [useMemorySystem] hook)

    A shallow embedding of the memory hook: [storeMemory],
    [retrieveMemories], [compressMemoriesInternal], the three scoring
    functions and [getMemoryStats], followed by the properties of the
    store that the design document states about them.

    Modelling conventions.
    - A JavaScript [number] that holds a score, a ratio or an importance is
      a real number ([R]); [Math.exp] and [Math.log] are [exp] and [ln].
      Rounding of IEEE doubles is not modelled.
    - A [Date] is its [getTime()] value: an integer count of milliseconds
      ([Z]).  The clock ([new Date()], [Date.now()]) is the argument [now]
      of every operation that reads it.
    - Counters ([accessCount], [cyclicCleanup], [limit]) are integers ([Z]).
    - A string is a [string] of 8-bit characters; [toLowerCase] and the
      regular expression class [\s] are modelled on ASCII.
    - The React state is passed explicitly.  [storeMemory] and
      [compressMemories] are the updaters that they hand to
      [setMemorySystem]: functions from the state before to the state
      after.  [retrieveMemories] reads the state [memorySystem] that its
      closure holds and returns, with its result, the updater that it
      hands to [setMemorySystem]. *)

From Stdlib Require Import Reals Lra Lia ZArith List Bool.
From Stdlib Require Import String Ascii DecimalString.
From Stdlib Require Import Permutation Sorted.
Import ListNotations.

Local Open Scope R_scope.
Local Open Scope string_scope.
Local Open Scope list_scope.

(** ** Decidable comparisons on reals, as booleans *)

Definition Rgtb (x y : R) : bool := if Rgt_dec x y then true else false.
Definition Rgeb (x y : R) : bool := if Rge_dec x y then true else false.
Definition Rltb (x y : R) : bool := if Rlt_dec x y then true else false.

(** ** Strings: [toLowerCase], [includes], [split(/\s+/)], [join] *)

Definition lowerChar (c : ascii) : ascii :=
  let n := nat_of_ascii c in
  if andb (Nat.leb 65 n) (Nat.leb n 90) then ascii_of_nat (n + 32) else c.

Fixpoint toLowerCase (s : string) : string :=
  match s with
  | EmptyString => EmptyString
  | String c s' => String (lowerChar c) (toLowerCase s')
  end.

(** [s.includes(p)]: [p] occurs in [s] as a substring. *)
Fixpoint includes (s p : string) : bool :=
  orb (String.prefix p s)
      match s with
      | EmptyString => false
      | String _ s' => includes s' p
      end.

(** The ASCII members of [\s]: tab, line feed, vertical tab, form feed,
    carriage return and space. *)
Definition isSpace (c : ascii) : bool :=
  let n := nat_of_ascii c in
  orb (andb (Nat.leb 9 n) (Nat.leb n 13)) (Nat.eqb n 32).

(** [s.split(/\s+/)]: [cur] is the token being read, [inSep] tells whether
    the previous character was part of a separator.  A separator at the
    start or at the end of the string yields an empty token. *)
Fixpoint splitFrom (inSep : bool) (cur s : string) : list string :=
  match s with
  | EmptyString => [cur]
  | String c s' =>
      if isSpace c
      then if inSep then splitFrom true cur s'
           else cur :: splitFrom true EmptyString s'
      else splitFrom false (cur ++ String c EmptyString) s'
  end.

Definition splitWhitespace (s : string) : list string :=
  splitFrom false EmptyString s.

Definition join (sep : string) (l : list string) : string :=
  String.concat sep l.

Definition inList (x : string) (l : list string) : bool :=
  existsb (String.eqb x) l.

(** ** [JSON.stringify] on serializable values *)

#[local] Set Warnings "-register-all".

Inductive JSON : Type :=
| JNull
| JBool (b : bool)
| JNum (n : Z)
| JStr (s : string)
| JArr (elems : list JSON)
| JObj (members : list (string * JSON)).

Definition dquote : ascii := ascii_of_nat 34.
Definition backslash : ascii := ascii_of_nat 92.

Definition hexDigit (n : nat) : ascii :=
  if Nat.ltb n 10 then ascii_of_nat (48 + n) else ascii_of_nat (87 + n).

(** The escape of one character inside a JSON string literal. *)
Definition escapeChar (c : ascii) : string :=
  let n := nat_of_ascii c in
  if Nat.eqb n 34 then String backslash (String dquote EmptyString)
  else if Nat.eqb n 92 then String backslash (String backslash EmptyString)
  else if Nat.eqb n 8 then "\b"
  else if Nat.eqb n 9 then "\t"
  else if Nat.eqb n 10 then "\n"
  else if Nat.eqb n 12 then "\f"
  else if Nat.eqb n 13 then "\r"
  else if Nat.ltb n 32
       then "\u00" ++ String (hexDigit (n / 16)) (String (hexDigit (n mod 16)) EmptyString)
       else String c EmptyString.

Fixpoint escape (s : string) : string :=
  match s with
  | EmptyString => EmptyString
  | String c s' => escapeChar c ++ escape s'
  end.

Definition quote (s : string) : string :=
  String dquote (escape s ++ String dquote EmptyString).

Fixpoint stringify (v : JSON) : string :=
  match v with
  | JNull => "null"
  | JBool true => "true"
  | JBool false => "false"
  | JNum n => NilZero.string_of_int (Z.to_int n)
  | JStr s => quote s
  | JArr elems =>
      "[" ++ join "," (map stringify elems) ++ "]"
  | JObj members =>
      "{" ++ join "," (map (fun kv => (quote (fst kv) ++ ":" ++ stringify (snd kv))%string) members) ++ "}"
  end.

(** ** Arrays: [slice] and the stable [sort] with a comparator *)

(** A relative index of [slice], resolved against the length. *)
Definition clampIndex (len i : Z) : Z :=
  if (i <? 0)%Z then Z.max (len + i) 0 else Z.min i len.

(** [l.slice(s, e)]; a negative index counts from the end. *)
Definition slice {A : Type} (l : list A) (s e : Z) : list A :=
  let len := Z.of_nat (List.length l) in
  let k := clampIndex len s in
  let final := clampIndex len e in
  firstn (Z.to_nat (final - k)) (skipn (Z.to_nat k) l).

(** [l.slice(s)]. *)
Definition sliceFrom {A : Type} (l : list A) (s : Z) : list A :=
  slice l s (Z.of_nat (List.length l)).

Section Sort.
Context {A : Type}.
(** [before a b] holds when the comparator is negative at [(a, b)]:
    [a] must come first. *)
Variable before : A -> A -> bool.

Fixpoint insertSorted (x : A) (l : list A) : list A :=
  match l with
  | [] => [x]
  | y :: l' => if before y x then y :: insertSorted x l' else x :: y :: l'
  end.

(** The sort is stable: an element stays ahead of the later elements
    that the comparator does not put before it. *)
Definition sortWith (l : list A) : list A :=
  fold_right insertSorted [] l.
End Sort.

(** ** Data model *)

Record MemoryItem : Type := mkMemoryItem {
  id : string;
  content : JSON;
  timestamp : Z;
  accessCount : Z;
  importance : R;
  tags : list string;
  metadata : JSON;
  retentionScore : option R;
  lastAccessed : option Z
}.

(** The field [retentionScore] of the state is [stateRetentionScore] here:
    the item has a field of the same name. *)
Record MemorySystemState : Type := mkState {
  shortTerm : list MemoryItem;
  longTerm : list MemoryItem;
  archive : list MemoryItem;
  compressionRatio : R;
  stateRetentionScore : R;
  cyclicCleanup : Z
}.

Record MemoryConfig : Type := mkConfig {
  cfgCompressionRatio : option R;
  cfgRetentionThreshold : option R;
  cfgCleanupInterval : option Z
}.

Inductive SortBy : Type := relevance | recency | byImportance.

Record MemoryRetrievalOptions : Type := mkOptions {
  limit : option Z;
  threshold : option R;
  includeArchived : option bool;
  sortBy : option SortBy
}.

(** [{ ...memory, relevanceScore }] *)
Record ScoredMemory : Type := mkScored {
  memory : MemoryItem;
  relevanceScore : R
}.

(** [{ ...m, accessCount: n }] *)
Definition withAccessCount (m : MemoryItem) (n : Z) : MemoryItem :=
  mkMemoryItem (id m) (content m) (timestamp m) n (importance m) (tags m)
               (metadata m) (retentionScore m) (lastAccessed m).

(** [{ ...m, retentionScore: s }] *)
Definition withRetentionScore (m : MemoryItem) (s : R) : MemoryItem :=
  mkMemoryItem (id m) (content m) (timestamp m) (accessCount m) (importance m)
               (tags m) (metadata m) (Some s) (lastAccessed m).

(** [x || d] on an optional number: [undefined] and [0] give [d]. *)
Definition orDefault (x : option R) (d : R) : R :=
  match x with
  | Some r => if Req_dec_T r 0 then d else r
  | None => d
  end.

Definition initialState (config : MemoryConfig) : MemorySystemState :=
  mkState [] [] []
          (orDefault (cfgCompressionRatio config) 0.7)
          (orDefault (cfgRetentionThreshold config) 0.8)
          0.

Definition msPerDay : R := 1000 * 60 * 60 * 24.

(** ** Scores *)

Definition calculateSimilarity (content1 content2 : JSON) : R :=
  let str1 := toLowerCase (stringify content1) in
  let str2 := toLowerCase (stringify content2) in
  if String.eqb str1 str2 then 1
  else
    let words1 := nodup string_dec (splitWhitespace str1) in
    let words2 := nodup string_dec (splitWhitespace str2) in
    let intersection := filter (fun x => inList x words2) words1 in
    let union := nodup string_dec (words1 ++ words2) in
    INR (List.length intersection) / INR (List.length union).

Definition calculateRelevance (now : Z) (query : string) (memory : MemoryItem) : R :=
  let queryLower := toLowerCase query in
  let contentStr := toLowerCase (stringify (content memory)) in
  let tagsStr := toLowerCase (join " " (tags memory)) in
  let score := 0 in
  let score := if includes contentStr queryLower then score + 0.8 else score in
  let score := if includes tagsStr queryLower then score + 0.6 else score in
  let queryWords := splitWhitespace queryLower in
  let contentWords := splitWhitespace contentStr in
  let overlap := List.length (filter (fun word => inList word contentWords) queryWords) in
  let score := score + (INR overlap / INR (List.length queryWords)) * 0.4 in
  let score := score * (1 + importance memory * 0.2) in
  let score := score * (1 + ln (IZR (accessCount memory + 1)) * 0.1) in
  let daysSinceCreation := IZR (now - timestamp memory) / msPerDay in
  let score := score * Rmax 0.5 (1 - daysSinceCreation * 0.01) in
  Rmin 1 score.

Definition importantTags : list string :=
  ["critical"; "important"; "user-preference"; "system-config"].

Definition calculateRetentionScore (memory : MemoryItem) (currentTime : Z) : R :=
  let ageInDays := IZR (currentTime - timestamp memory) / msPerDay in
  let score := importance memory in
  let score := score + Rmin 0.3 (IZR (accessCount memory) * 0.05) in
  let score := score * exp (- ageInDays * 0.1) in
  let hasImportantTags := existsb (fun tag => inList tag importantTags) (tags memory) in
  let score := if hasImportantTags then score * 1.5 else score in
  Rmin 1 score.

(** ** Compression *)

Definition compressionThreshold : Z := 50.

(** [Math.floor(compressionThreshold * 0.7)] *)
Definition keepInShortTerm : Z := (compressionThreshold * 7 / 10)%Z.

Definition archiveRetentionDays : Z := 30.

(** The score that the comparator of the compression sort reads from a
    scored record. *)
Definition scoreOf (m : MemoryItem) : R :=
  match retentionScore m with
  | Some s => s
  | None => 0
  end.

(** The filter of the archive sweep. *)
Definition keptInArchive (cutoffDate : Z) (memory : MemoryItem) : bool :=
  orb (timestamp memory >? cutoffDate)%Z (Rgtb (importance memory) 0.8).

Definition compressMemoriesInternal (now : Z) (state : MemorySystemState)
  : MemorySystemState :=
  let state :=
    if (Z.of_nat (List.length (shortTerm state)) >? compressionThreshold)%Z then
      let scoredMemories :=
        map (fun memory => withRetentionScore memory (calculateRetentionScore memory now))
            (shortTerm state) in
      let scoredMemories :=
        sortWith (fun a b => Rltb (scoreOf b - scoreOf a) 0) scoredMemories in
      let newShortTerm := slice scoredMemories 0 keepInShortTerm in
      let moveToLongTerm := slice scoredMemories keepInShortTerm (keepInShortTerm + 20) in
      let toArchive := sliceFrom scoredMemories (keepInShortTerm + 20) in
      let archiveWorthy := filter (fun m => Rgtb (scoreOf m) 0.3) toArchive in
      let totalOriginal := List.length scoredMemories in
      let totalKept :=
        (List.length newShortTerm + List.length moveToLongTerm + List.length archiveWorthy)%nat in
      mkState newShortTerm
              (longTerm state ++ moveToLongTerm)
              (archive state ++ archiveWorthy)
              (INR totalKept / INR totalOriginal)
              (stateRetentionScore state)
              (cyclicCleanup state)
    else state in
  let cutoffDate := (now - archiveRetentionDays * 24 * 60 * 60 * 1000)%Z in
  mkState (shortTerm state)
          (longTerm state)
          (filter (keptInArchive cutoffDate) (archive state))
          (compressionRatio state)
          (stateRetentionScore state)
          (cyclicCleanup state + 1).

(** [compressMemories]: the state update of an explicit or periodic
    compression. *)
Definition compressMemories (now : Z) (prev : MemorySystemState) : MemorySystemState :=
  compressMemoriesInternal now prev.

(** ** Storage *)

Definition isDuplicate (prev : MemorySystemState) (item : MemoryItem) : bool :=
  existsb (fun existing => Rgtb (calculateSimilarity (content existing) (content item)) 0.9)
          (shortTerm prev).

Definition storeMemory (now : Z) (item : MemoryItem) (prev : MemorySystemState)
  : MemorySystemState :=
  if negb (isDuplicate prev item) then
    let newState :=
      mkState (shortTerm prev ++ [item]) (longTerm prev) (archive prev)
              (compressionRatio prev) (stateRetentionScore prev) (cyclicCleanup prev) in
    if (Z.of_nat (List.length (shortTerm newState)) >? 100)%Z
    then compressMemoriesInternal now newState
    else newState
  else prev.

(** ** Retrieval *)

Definition optLimit (o : MemoryRetrievalOptions) : Z :=
  match limit o with Some n => n | None => 10%Z end.
Definition optThreshold (o : MemoryRetrievalOptions) : R :=
  match threshold o with Some t => t | None => 0.7 end.
Definition optIncludeArchived (o : MemoryRetrievalOptions) : bool :=
  match includeArchived o with Some b => b | None => false end.
Definition optSortBy (o : MemoryRetrievalOptions) : SortBy :=
  match sortBy o with Some k => k | None => relevance end.

Definition allMemories (includeArchived : bool) (st : MemorySystemState)
  : list MemoryItem :=
  shortTerm st ++ longTerm st ++ (if includeArchived then archive st else []).

(** The comparator of the retrieval sort is negative at [(a, b)]. *)
Definition retrievalBefore (k : SortBy) (a b : ScoredMemory) : bool :=
  match k with
  | recency => (timestamp (memory b) - timestamp (memory a) <? 0)%Z
  | byImportance => Rltb (importance (memory b) - importance (memory a)) 0
  | relevance => Rltb (relevanceScore b - relevanceScore a) 0
  end.

(** The sorted survivors of the threshold, before the cut at [limit]. *)
Definition scoredMemories (now : Z) (query : string) (o : MemoryRetrievalOptions)
           (st : MemorySystemState) : list ScoredMemory :=
  let scored :=
    filter (fun m => Rgeb (relevanceScore m) (optThreshold o))
           (map (fun memory => mkScored memory (calculateRelevance now query memory))
                (allMemories (optIncludeArchived o) st)) in
  sortWith (retrievalBefore (optSortBy o)) scored.

(** The update of one persisted record. *)
Definition touch (retrievedIds : list string) (m : MemoryItem) : MemoryItem :=
  if inList (id m) retrievedIds then withAccessCount m (accessCount m + 1) else m.

(** The updater of [retrieveMemories]. *)
Definition updateAccessCounts (retrievedIds : list string) (prev : MemorySystemState)
  : MemorySystemState :=
  mkState (map (touch retrievedIds) (shortTerm prev))
          (map (touch retrievedIds) (longTerm prev))
          (archive prev)
          (compressionRatio prev)
          (stateRetentionScore prev)
          (cyclicCleanup prev).

(** The records returned, and the updater of the state. *)
Definition retrieveMemories (now : Z) (query : string) (o : MemoryRetrievalOptions)
           (memorySystem : MemorySystemState)
  : list ScoredMemory * (MemorySystemState -> MemorySystemState) :=
  let sorted := scoredMemories now query o memorySystem in
  let retrievedIds := map (fun m => id (memory m)) (slice sorted 0 (optLimit o)) in
  (slice sorted 0 (optLimit o), updateAccessCounts retrievedIds).

(** ** Statistics *)

Record MemoryStats : Type := mkStats {
  totalMemories : nat;
  shortTermCount : nat;
  longTermCount : nat;
  archiveCount : nat;
  averageImportance : R;
  statsCompressionRatio : R;
  statsRetentionScore : R;
  cleanupCycles : Z
}.

Definition getMemoryStats (st : MemorySystemState) : MemoryStats :=
  let total :=
    (List.length (shortTerm st) + List.length (longTerm st) + List.length (archive st))%nat in
  let average :=
    if Nat.ltb 0 total
    then fold_left (fun sum m => sum + importance m)
                   (shortTerm st ++ longTerm st ++ archive st) 0 / INR total
    else 0 in
  mkStats total (List.length (shortTerm st)) (List.length (longTerm st))
          (List.length (archive st)) average (compressionRatio st)
          (stateRetentionScore st) (cyclicCleanup st).

(** ** Histories of the store *)

(** One update of the state by an operation of the store, at some reading
    of the clock.  The updater of a retrieval comes from a closure over a
    state [seen], the current one or an earlier one.  [getMemoryStats] only
    reads the state. *)
Inductive step : MemorySystemState -> MemorySystemState -> Prop :=
| step_store now item st : step st (storeMemory now item st)
| step_retrieve now query o seen st :
    step st (snd (retrieveMemories now query o seen) st)
| step_compress now st : step st (compressMemories now st).

(** The states that follow a state after any number of calls. *)
Inductive later (st : MemorySystemState) : MemorySystemState -> Prop :=
| later_now : later st st
| later_step st' st'' : later st st' -> step st' st'' -> later st st''.

(** The states that a store built with [config] goes through. *)
Definition reachable (config : MemoryConfig) (st : MemorySystemState) : Prop :=
  later (initialState config) st.

(** ** Names for the parts of a compression *)

(** The short-term records with their retention scores, ranked by the
    compression sort. *)
Definition retentionRanking (now : Z) (st : MemorySystemState) : list MemoryItem :=
  sortWith (fun a b => Rltb (scoreOf b - scoreOf a) 0)
           (map (fun memory => withRetentionScore memory (calculateRetentionScore memory now))
                (shortTerm st)).

Definition thirtyDays : Z := 2592000000.

(** The archive sweep at time [now]. *)
Definition sweepArchive (now : Z) (l : list MemoryItem) : list MemoryItem :=
  filter (keptInArchive (now - thirtyDays)) l.

(** The state of [storeMemory] after the append, before any compression. *)
Definition appendItem (item : MemoryItem) (prev : MemorySystemState) : MemorySystemState :=
  mkState (shortTerm prev ++ [item]) (longTerm prev) (archive prev)
          (compressionRatio prev) (stateRetentionScore prev) (cyclicCleanup prev).

(** Two contents that differ as strings and share no word: their
    similarity is 0.  This test computes. *)
Definition disjointWords (content1 content2 : JSON) : bool :=
  let str1 := toLowerCase (stringify content1) in
  let str2 := toLowerCase (stringify content2) in
  let words1 := nodup string_dec (splitWhitespace str1) in
  let words2 := nodup string_dec (splitWhitespace str2) in
  andb (negb (String.eqb str1 str2))
       (Nat.eqb (List.length (filter (fun x => inList x words2) words1)) 0).

(** A record is carried along: nothing but its access count may differ,
    and the count does not decrease. *)
Definition carried (m m' : MemoryItem) : Prop :=
  m' = withAccessCount m (accessCount m') /\ (accessCount m <= accessCount m')%Z.

(** A tier is extended: its records are carried along, in their places,
    and records may follow them. *)
Definition extended (l l' : list MemoryItem) : Prop :=
  exists kept extra, l' = kept ++ extra /\ Forall2 carried l kept.

(** All the records that the store holds. *)
Definition tiers (st : MemorySystemState) : list MemoryItem :=
  shortTerm st ++ longTerm st ++ archive st.

(** The effect of a retrieval that returned the records of ids [ids] on a
    persisted record: one more access when its id is among them, nothing
    otherwise. *)
Definition touchedBy (ids : list string) (m m' : MemoryItem) : Prop :=
  (In (id m) ids -> m' = withAccessCount m (accessCount m + 1))
  /\ (~ In (id m) ids -> m' = m).

(** A record is moved as it is, but for the retention score that a
    compression writes on it. *)
Definition annotated (m m' : MemoryItem) : Prop :=
  m' = m \/ exists s, m' = withRetentionScore m s.

(** The ids of the records that a retrieval returned. *)
Definition returnedIds (result : list ScoredMemory) : list string :=
  map (fun r => id (memory r)) result.

(** ** Sample data *)

Definition defaultConfig : MemoryConfig := mkConfig None None None.

Definition defaultOptions : MemoryRetrievalOptions := mkOptions None None None None.

(** A record as [handleMemoryOperation] creates it: no access yet, no
    tags, empty metadata. *)
Definition newItem (ident : string) (c : JSON) (ts : Z) (imp : R) : MemoryItem :=
  mkMemoryItem ident c ts 0 imp [] (JObj []) None None.

Definition alpha : MemoryItem :=
  mkMemoryItem "m1" (JStr "alpha") 0 0 0.9 ["critical"] (JObj []) None None.

Definition stateOf (short long arch : list MemoryItem) : MemorySystemState :=
  mkState short long arch 0.7 0.8 0.

(** Two archived records created at time 0, and a store that holds them. *)
Definition oldLow : MemoryItem := newItem "a1" (JStr "old notes") 0 0.5.
Definition oldHigh : MemoryItem := newItem "a2" (JStr "old contract") 0 0.9.

Definition agedStore : MemorySystemState := stateOf [] [] [oldLow; oldHigh].

Definition day31 : Z := 31 * 86400000.

(** Short-term records with pairwise different contents, and stores that
    hold the first 60 and the first 100 of them. *)
Definition numbered (i : nat) : MemoryItem :=
  newItem ("m" ++ NilZero.string_of_uint (Nat.to_uint i)) (JNum (Z.of_nat i)) 0 0.5.

Definition crowdedStore : MemorySystemState := stateOf (map numbered (seq 0 60)) [] [].

Definition fullStore : MemorySystemState := stateOf (map numbered (seq 0 100)) [] [].

(** A second record with the content of [alpha]. *)
Definition alphaAgain : MemoryItem :=
  mkMemoryItem "m2" (JStr "alpha") 5000 0 0.3 [] (JObj []) None None.

Definition alphaStore : MemorySystemState := stateOf [alpha] [] [].

(** A record whose content is the string [alpha], created at time 0 with
    importance 0, and the store that holds it. *)
Definition staleAlpha : MemoryItem := newItem "s1" (JStr "alpha") 0 0.

Definition staleStore : MemorySystemState := stateOf [staleAlpha] [] [].

Definition day50 : Z := 50 * 86400000.

(** A query with a character that [JSON.stringify] escapes, and a record
    whose content is that string. *)
Definition quoted : string := String "a" (String dquote "b").

Definition quotedItem : MemoryItem := newItem "q1" (JStr quoted) 0 0.5.

Definition quotedStore : MemorySystemState := stateOf [quotedItem] [] [].

(** Twelve and a half days, in milliseconds. *)
Definition freshFor : Z := 1080000000.

(** The options of [retrieve(query, {threshold: 0.7})]. *)
Definition thresholdOnly : MemoryRetrievalOptions := mkOptions None (Some 0.7) None None.

(** A fresh record whose content is the string [alpha]; a store that holds
    it in the archive; and a store that holds it behind ten records of
    higher importance whose contents contain [alpha]. *)
Definition freshAlpha : MemoryItem := newItem "f1" (JStr "alpha") 0 0.5.

Definition archivedStore : MemorySystemState := stateOf [] [] [freshAlpha].

Definition echo (i : nat) : MemoryItem :=
  newItem ("e" ++ NilZero.string_of_uint (Nat.to_uint i))
          (JStr ("alpha " ++ NilZero.string_of_uint (Nat.to_uint i))) 0 0.9.

(** The relevance of the records of [echoStore] for the query [alpha]. *)
Definition echoScore (m : MemoryItem) : R :=
  if String.eqb (id m) "f1" then 0.88 else 0.944.

Definition echoStore : MemorySystemState :=
  stateOf (map echo (seq 0 10) ++ [freshAlpha]) [] [].

Definition freshStore : MemorySystemState := stateOf [freshAlpha] [] [].

(** The options of a retrieval that looks into the archive. *)
Definition withArchive : MemoryRetrievalOptions := mkOptions None None (Some true) None.

(** A store that holds 53 short-term records. *)
Definition snugStore : MemorySystemState := stateOf (map numbered (seq 0 53)) [] [].

(** What holds of the tiers that only compressions fill: a long-term record
    carries a retention score, and an archived one a score above 0.3. *)
Definition scoredTiers (st : MemorySystemState) : Prop :=
  (forall m, In m (archive st) ->
             exists s, retentionScore m = Some s /\ 0.3 < s <= 1)
  /\ (forall m, In m (longTerm st) ->
                exists s, retentionScore m = Some s /\ s <= 1).

(** * Properties *)

(** ** The library functions on small inputs *)

Example splitWhitespace_edges :
  splitWhitespace " a  b " = [EmptyString; "a"; "b"; EmptyString].
Proof. reflexivity. Qed.

Example splitWhitespace_empty : splitWhitespace EmptyString = [EmptyString].
Proof. reflexivity. Qed.

Example toLowerCase_ascii : toLowerCase "Hello World-42" = "hello world-42".
Proof. reflexivity. Qed.

Example includes_cases :
  includes "hello" "ell" = true /\ includes "hello" EmptyString = true
  /\ includes EmptyString "a" = false /\ includes "hello" "lol" = false.
Proof. repeat split. Qed.

Example stringify_array :
  stringify (JArr [JNum 12; JNull; JBool true; JNum (-3)]) = "[12,null,true,-3]".
Proof. reflexivity. Qed.

Example stringify_string :
  stringify (JStr "alpha") = String dquote ("alpha" ++ String dquote EmptyString)%string.
Proof. reflexivity. Qed.

Example stringify_escapes :
  stringify (JStr quoted)
  = String dquote
      ("a" ++ String backslash (String dquote ("b" ++ String dquote EmptyString)))%string.
Proof. reflexivity. Qed.

Example slice_from_the_end : slice [1; 2; 3]%nat 0 (-1) = [1; 2]%nat.
Proof. reflexivity. Qed.

Example keepInShortTerm_value : keepInShortTerm = 35%Z.
Proof. reflexivity. Qed.

(** ** Comparisons *)

Lemma Rgtb_true x y : Rgtb x y = true <-> x > y.
Proof. unfold Rgtb; destruct (Rgt_dec x y); split; intros; auto; discriminate. Qed.

Lemma Rgtb_false x y : Rgtb x y = false <-> x <= y.
Proof.
  unfold Rgtb; destruct (Rgt_dec x y); split; intros; auto; try discriminate; lra.
Qed.

Lemma Rgeb_true x y : Rgeb x y = true <-> x >= y.
Proof. unfold Rgeb; destruct (Rge_dec x y); split; intros; auto; discriminate. Qed.

Lemma Rgeb_false x y : Rgeb x y = false <-> x < y.
Proof.
  unfold Rgeb; destruct (Rge_dec x y); split; intros; auto; try discriminate; lra.
Qed.

Lemma Rltb_true x y : Rltb x y = true <-> x < y.
Proof. unfold Rltb; destruct (Rlt_dec x y); split; intros; auto; discriminate. Qed.

Lemma Rltb_false x y : Rltb x y = false <-> y <= x.
Proof.
  unfold Rltb; destruct (Rlt_dec x y); split; intros; auto; try discriminate; lra.
Qed.

Lemma inList_In x l : inList x l = true <-> In x l.
Proof.
  unfold inList; rewrite existsb_exists; split.
  - intros (y & Hy & E); apply String.eqb_eq in E; now subst.
  - intros H; exists x; split; [assumption | apply String.eqb_refl].
Qed.

(** ** The retention score *)

Lemma hasImportantTags_spec (m : MemoryItem) :
  existsb (fun tag => inList tag importantTags) (tags m) = true
  <-> exists tag, In tag (tags m) /\ In tag importantTags.
Proof.
  rewrite existsb_exists; split; intros (tag & H1 & H2); exists tag; split; auto;
    now apply inList_In.
Qed.

(** C9.  The retention score of a record is
    [min(1, (importance + min(0.3, accessCount * 0.05)) * e^(-ageInDays * 0.1) * t)],
    where [t] is 1.5 when some tag of the record is one of [critical],
    [important], [user-preference], [system-config] and 1 otherwise; for an
    importance in [[0,1]] and a non-negative access count it lies in
    [[0,1]]. *)
Theorem retention_score_formula (m : MemoryItem) (now : Z) (t : R) :
  ((exists tag, In tag (tags m) /\ In tag importantTags) -> t = 1.5) ->
  (~ (exists tag, In tag (tags m) /\ In tag importantTags) -> t = 1) ->
  let ageInDays := IZR (now - timestamp m) / msPerDay in
  calculateRetentionScore m now =
    Rmin 1 ((importance m + Rmin 0.3 (IZR (accessCount m) * 0.05))
            * exp (- ageInDays * 0.1) * t)
  /\ (0 <= importance m <= 1 -> (0 <= accessCount m)%Z ->
      0 <= calculateRetentionScore m now <= 1).
Proof.
  intros Hyes Hno ageInDays.
  assert (E : calculateRetentionScore m now =
              Rmin 1 ((importance m + Rmin 0.3 (IZR (accessCount m) * 0.05))
                      * exp (- ageInDays * 0.1) * t)).
  { unfold calculateRetentionScore; fold ageInDays.
    destruct (existsb _ (tags m)) eqn:Htags.
    - rewrite (Hyes (proj1 (hasImportantTags_spec m) Htags)); reflexivity.
    - rewrite Hno.
      + now rewrite Rmult_1_r.
      + intros H; apply hasImportantTags_spec in H; congruence. }
  split; [exact E |].
  intros [Hlo Hhi] Hacc; rewrite E; split.
  - apply Rmin_glb; [lra |].
    assert (0 <= IZR (accessCount m)) by now apply IZR_le.
    assert (0 <= Rmin 0.3 (IZR (accessCount m) * 0.05)) by (apply Rmin_glb; lra).
    assert (0 < exp (- ageInDays * 0.1)) by apply exp_pos.
    assert (0 < t).
    { destruct (existsb (fun tag => inList tag importantTags) (tags m)) eqn:Htags.
      - rewrite (Hyes (proj1 (hasImportantTags_spec m) Htags)); lra.
      - rewrite Hno; [lra |].
        intros H3; apply hasImportantTags_spec in H3; congruence. }
    apply Rmult_le_pos; [apply Rmult_le_pos |]; lra.
  - apply Rmin_l.
Qed.

(** ** [slice] at non-negative indices *)

Lemma slice_nonneg {A : Type} (l : list A) (a b : Z) :
  (0 <= a <= b)%Z ->
  slice l a b = firstn (Z.to_nat (b - a)) (skipn (Z.to_nat a) l).
Proof.
  intros [Ha Hab]; unfold slice, clampIndex.
  destruct (Z.ltb_spec a 0); [lia |].
  destruct (Z.ltb_spec b 0); [lia |].
  set (len := Z.of_nat (List.length l)).
  destruct (Z.le_gt_cases a len) as [Hal | Hal].
  - rewrite (Z.min_l a len) by assumption.
    destruct (Z.le_gt_cases b len) as [Hbl | Hbl].
    + now rewrite (Z.min_l b len).
    + rewrite (Z.min_r b len) by lia.
      rewrite !firstn_all2; [reflexivity | |]; rewrite length_skipn; subst len; lia.
  - rewrite (Z.min_r a len), (Z.min_r b len) by lia.
    rewrite !skipn_all2; [now rewrite !firstn_nil | | ]; subst len; lia.
Qed.

Lemma slice_prefix {A : Type} (l : list A) (n : Z) :
  (0 <= n)%Z -> slice l 0 n = firstn (Z.to_nat n) l.
Proof.
  intros Hn; rewrite slice_nonneg by lia.
  now rewrite Z.sub_0_r.
Qed.

(** Whatever its end, a slice from 0 is a prefix. *)
Lemma slice_from_0 {A : Type} (l : list A) (e : Z) :
  exists n, slice l 0 e = firstn n l.
Proof.
  unfold slice; exists (Z.to_nat (clampIndex (Z.of_nat (List.length l)) e - 0)).
  unfold clampIndex at 2 3; cbn [Z.ltb Z.compare].
  rewrite Z.min_l by lia; reflexivity.
Qed.

Lemma sliceFrom_nonneg {A : Type} (l : list A) (a : Z) :
  (0 <= a)%Z -> sliceFrom l a = skipn (Z.to_nat a) l.
Proof.
  intros Ha; unfold sliceFrom, slice, clampIndex.
  destruct (Z.ltb_spec a 0); [lia |].
  destruct (Z.ltb_spec (Z.of_nat (List.length l)) 0); [lia |].
  set (len := Z.of_nat (List.length l)).
  rewrite Z.min_id.
  destruct (Z.le_gt_cases a len) as [Hal | Hal].
  - rewrite (Z.min_l a len) by assumption.
    apply firstn_all2; rewrite length_skipn; subst len; lia.
  - rewrite (Z.min_r a len) by lia.
    rewrite !skipn_all2; [now rewrite firstn_nil | |]; subst len; lia.
Qed.

(** ** The sort *)

Section SortFacts.
Context {A : Type}.
Variable before : A -> A -> bool.

Lemma insertSorted_perm (x : A) (l : list A) :
  Permutation (insertSorted before x l) (x :: l).
Proof.
  induction l as [| y l IH]; simpl; [reflexivity |].
  destruct (before y x); [| reflexivity].
  rewrite IH; apply perm_swap.
Qed.

Lemma sortWith_perm (l : list A) : Permutation (sortWith before l) l.
Proof.
  induction l as [| x l IH]; simpl; [reflexivity |].
  rewrite insertSorted_perm; now constructor.
Qed.

Lemma sortWith_length (l : list A) :
  List.length (sortWith before l) = List.length l.
Proof. apply Permutation_length, sortWith_perm. Qed.

Lemma sortWith_In (l : list A) (x : A) : In x (sortWith before l) <-> In x l.
Proof.
  split; apply Permutation_in;
    [apply sortWith_perm | apply Permutation_sym, sortWith_perm].
Qed.

(** An order that the comparator respects. *)
Variable ord : A -> A -> Prop.
Hypothesis before_ord : forall a b, before a b = true -> ord a b.
Hypothesis not_before_ord : forall a b, before a b = false -> ord b a.
Hypothesis ord_trans : forall a b c, ord a b -> ord b c -> ord a c.

Lemma insertSorted_sorted (x : A) (l : list A) :
  StronglySorted ord l -> StronglySorted ord (insertSorted before x l).
Proof.
  induction 1 as [| y l Hs IH Hall]; simpl.
  - repeat constructor.
  - destruct (before y x) eqn:E.
    + constructor; [assumption |].
      apply Forall_forall; intros z Hz.
      apply (Permutation_in _ (insertSorted_perm x l)) in Hz.
      destruct Hz as [<- | Hz]; [now apply before_ord |].
      now apply (proj1 (Forall_forall _ _) Hall).
    + constructor; [now constructor |].
      constructor; [now apply not_before_ord |].
      apply Forall_forall; intros z Hz.
      apply ord_trans with y; [now apply not_before_ord |].
      now apply (proj1 (Forall_forall _ _) Hall).
Qed.

Lemma sortWith_sorted (l : list A) : StronglySorted ord (sortWith before l).
Proof.
  induction l as [| x l IH]; simpl; [constructor |].
  now apply insertSorted_sorted.
Qed.
End SortFacts.

(** The record [alpha] carries the tag [critical]. *)
Lemma retention_score_formula_witness :
  0 <= calculateRetentionScore alpha 0 <= 1.
Proof.
  refine (proj2 (retention_score_formula alpha 0 1.5 _ _) _ _).
  - intros _; reflexivity.
  - intros H; exfalso; apply H; exists "critical"; simpl; auto.
  - simpl; lra.
  - simpl; lia.
Defined.

(** ** Compression *)

Lemma compress_small (now : Z) (st : MemorySystemState) :
  (List.length (shortTerm st) <= 50)%nat ->
  compressMemoriesInternal now st =
    mkState (shortTerm st) (longTerm st) (sweepArchive now (archive st))
            (compressionRatio st) (stateRetentionScore st) (cyclicCleanup st + 1).
Proof.
  intros Hlen; unfold compressMemoriesInternal, compressionThreshold.
  destruct (Z.gtb_spec (Z.of_nat (List.length (shortTerm st))) 50); [lia |].
  reflexivity.
Qed.

Lemma compress_large (now : Z) (st : MemorySystemState) :
  (50 < List.length (shortTerm st))%nat ->
  let ranked := retentionRanking now st in
  let worthy := filter (fun m => Rgtb (scoreOf m) 0.3) (skipn 55 ranked) in
  compressMemoriesInternal now st =
    mkState (firstn 35 ranked)
            (longTerm st ++ firstn 20 (skipn 35 ranked))
            (sweepArchive now (archive st ++ worthy))
            (INR (List.length (firstn 35 ranked) + List.length (firstn 20 (skipn 35 ranked))
                  + List.length worthy)
             / INR (List.length ranked))
            (stateRetentionScore st) (cyclicCleanup st + 1).
Proof.
  intros Hlen ranked worthy; unfold compressMemoriesInternal, compressionThreshold.
  destruct (Z.gtb_spec (Z.of_nat (List.length (shortTerm st))) 50); [| lia].
  fold (retentionRanking now st); fold ranked.
  change keepInShortTerm with 35%Z; change (35 + 20)%Z with 55%Z.
  rewrite slice_prefix, slice_nonneg, sliceFrom_nonneg by lia.
  reflexivity.
Qed.

Lemma retentionRanking_length (now : Z) (st : MemorySystemState) :
  List.length (retentionRanking now st) = List.length (shortTerm st).
Proof. unfold retentionRanking; now rewrite sortWith_length, length_map. Qed.

Lemma exp_le_compat (x y : R) : x <= y -> exp x <= exp y.
Proof.
  intros [H | ->]; [left; now apply exp_increasing | right; reflexivity].
Qed.

Lemma exp_below_minus_3 (x : R) : x <= - (3) -> exp x < 1 / 8.
Proof.
  intros Hx.
  assert (H2 : 2 < exp 1) by (pose proof (exp_ineq1 1 R1_neq_R0); lra).
  assert (H8 : 8 < exp 3).
  { replace 3 with (1 + (1 + 1)) by lra.
    rewrite !exp_plus; nra. }
  apply Rle_lt_trans with (exp (Ropp 3)); [apply exp_le_compat; lra |].
  rewrite exp_Ropp.
  apply Rmult_lt_reg_r with (exp 3); [lra |].
  rewrite Rinv_l by lra; lra.
Qed.

(** A record that the sweep drops is too old to score above 0.3. *)
Lemma dropped_score_low (now : Z) (m : MemoryItem) :
  (timestamp m <= now - thirtyDays)%Z -> importance m <= 0.8 ->
  calculateRetentionScore m now <= 0.3.
Proof.
  intros Hts Himp; unfold calculateRetentionScore.
  set (age := IZR (now - timestamp m) / msPerDay).
  set (boost := Rmin 0.3 (IZR (accessCount m) * 0.05)).
  assert (Hboost : boost <= 0.3) by apply Rmin_l.
  assert (Hage : 30 <= age).
  { unfold age, msPerDay.
    assert (IZR thirtyDays <= IZR (now - timestamp m)) by (apply IZR_le; lia).
    unfold thirtyDays in *; lra. }
  assert (H3 : exp (- age * 0.1) < 1 / 8) by (apply exp_below_minus_3; lra).
  pose proof (exp_pos (- age * 0.1)) as Hpos.
  set (e := exp (- age * 0.1)) in *.
  assert (Hx : (importance m + boost) * e <= 0.1375).
  { destruct (Rle_lt_dec (importance m + boost) 0); nra. }
  assert (Hy : 0 < e) by assumption.
  eapply Rle_trans; [apply Rmin_r |].
  destruct (existsb _ (tags m)); lra.
Qed.

Lemma worthy_kept (now : Z) (m0 : MemoryItem) :
  let m := withRetentionScore m0 (calculateRetentionScore m0 now) in
  Rgtb (scoreOf m) 0.3 = true -> keptInArchive (now - thirtyDays) m = true.
Proof.
  intros m Hw; apply Rgtb_true in Hw.
  unfold keptInArchive; simpl.
  destruct (Z.gtb_spec (timestamp m0) (now - thirtyDays)) as [| Hle]; [reflexivity |].
  destruct (Rgtb (importance m0) 0.8) eqn:Himp; [reflexivity |].
  apply Rgtb_false in Himp.
  pose proof (dropped_score_low now m0 Hle Himp).
  unfold m, scoreOf in Hw; simpl in Hw; lra.
Qed.

Lemma sweep_worthy (now : Z) (st : MemorySystemState) (n : nat) :
  let worthy := filter (fun m => Rgtb (scoreOf m) 0.3) (skipn n (retentionRanking now st)) in
  sweepArchive now worthy = worthy.
Proof.
  intros worthy; unfold sweepArchive.
  apply forallb_filter_id, forallb_forall; intros m Hm.
  apply filter_In in Hm; destruct Hm as [Hin Hw].
  assert (Hr : In m (retentionRanking now st)).
  { rewrite <- (firstn_skipn n); apply in_or_app; now right. }
  apply sortWith_In, in_map_iff in Hr; destruct Hr as (m0 & <- & _).
  now apply worthy_kept.
Qed.

Lemma keptInArchive_true (c : Z) (m : MemoryItem) :
  keptInArchive c m = true <-> (c < timestamp m)%Z \/ importance m > 0.8.
Proof.
  unfold keptInArchive; rewrite orb_true_iff, Rgtb_true, Z.gtb_lt; reflexivity.
Qed.

Lemma keptInArchive_false (c : Z) (m : MemoryItem) :
  keptInArchive c m = false <-> (timestamp m <= c)%Z /\ importance m <= 0.8.
Proof.
  unfold keptInArchive; rewrite orb_false_iff, Rgtb_false, Z.gtb_ltb, Z.ltb_ge; reflexivity.
Qed.

Lemma sweepArchive_In (now : Z) (l : list MemoryItem) (m : MemoryItem) :
  In m (sweepArchive now l)
  <-> In m l /\ ((now - timestamp m < thirtyDays)%Z \/ importance m > 0.8).
Proof.
  unfold sweepArchive; rewrite filter_In, keptInArchive_true.
  split; intros [H [H1 | H1]]; split; auto; left; lia.
Qed.

(** The archive after a compression: the swept archive, followed by the
    short-term records that the compression archived. *)
Lemma compress_archive (now : Z) (st : MemorySystemState) :
  exists extra,
    archive (compressMemoriesInternal now st) = sweepArchive now (archive st) ++ extra
    /\ sweepArchive now extra = extra.
Proof.
  destruct (Nat.le_gt_cases (List.length (shortTerm st)) 50) as [H | H].
  - exists []; rewrite compress_small by assumption; simpl.
    now rewrite app_nil_r.
  - exists (filter (fun m => Rgtb (scoreOf m) 0.3) (skipn 55 (retentionRanking now st))).
    rewrite compress_large by assumption; cbn [archive].
    split; [| apply sweep_worthy].
    unfold sweepArchive; rewrite filter_app; f_equal.
    apply (sweep_worthy now st 55).
Qed.

(** C2, as the code has it.  A compression of a store with at most 50
    short-term records leaves [shortTerm], [longTerm] and the compression
    ratio as they were; it still sweeps the archive and counts the cycle. *)
Theorem compress_below_threshold (now : Z) (st : MemorySystemState) :
  (List.length (shortTerm st) <= 50)%nat ->
  shortTerm (compressMemories now st) = shortTerm st
  /\ longTerm (compressMemories now st) = longTerm st
  /\ archive (compressMemories now st) = sweepArchive now (archive st)
  /\ compressionRatio (compressMemories now st) = compressionRatio st
  /\ cyclicCleanup (compressMemories now st) = (cyclicCleanup st + 1)%Z.
Proof.
  intros H; unfold compressMemories; rewrite compress_small by assumption.
  simpl; repeat split.
Qed.

Lemma compress_below_threshold_witness :
  cyclicCleanup (compressMemories day31 agedStore) = 1%Z.
Proof.
  refine (proj2 (proj2 (proj2 (proj2 (compress_below_threshold day31 agedStore _))))).
  simpl; lia.
Defined.

(** C2 as stated fails: with no short-term record at all, a compression
    drops an old archive record and advances the cycle counter. *)
Lemma compress_below_threshold_changes :
  (List.length (shortTerm agedStore) <= 50)%nat
  /\ archive (compressMemories day31 agedStore) = [oldHigh]
  /\ archive agedStore = [oldLow; oldHigh]
  /\ cyclicCleanup (compressMemories day31 agedStore) <> cyclicCleanup agedStore.
Proof.
  split; [simpl; lia |].
  unfold compressMemories; rewrite compress_small by (simpl; lia).
  assert (E1 : keptInArchive (day31 - thirtyDays) oldLow = false).
  { apply keptInArchive_false; simpl; split; [unfold day31, thirtyDays; lia | lra]. }
  assert (E2 : keptInArchive (day31 - thirtyDays) oldHigh = true).
  { apply keptInArchive_true; right; simpl; lra. }
  unfold sweepArchive, agedStore, stateOf; cbn [archive cyclicCleanup filter].
  rewrite E1, E2; repeat split; lia.
Qed.

Lemma retentionRanking_perm (now : Z) (st : MemorySystemState) :
  Permutation (retentionRanking now st)
              (map (fun m => withRetentionScore m (calculateRetentionScore m now))
                   (shortTerm st)).
Proof. apply sortWith_perm. Qed.

Lemma retentionRanking_sorted (now : Z) (st : MemorySystemState) :
  StronglySorted (fun a b => scoreOf a >= scoreOf b) (retentionRanking now st).
Proof.
  apply sortWith_sorted.
  - intros a b H; apply Rltb_true in H; lra.
  - intros a b H; apply Rltb_false in H; lra.
  - intros a b c; lra.
Qed.

(** C3.  A compression of more than 50 short-term records ranks them by
    descending retention score, keeps the first 35 in [shortTerm], appends
    the next 20 to [longTerm] whatever their score, and appends to
    [archive] those of the remaining ones whose score is above 0.3; the
    other ones are dropped. *)
Theorem compress_promotion (now : Z) (st : MemorySystemState) :
  (50 < List.length (shortTerm st))%nat ->
  let ranked := retentionRanking now st in
  let st' := compressMemories now st in
  Permutation ranked
              (map (fun m => withRetentionScore m (calculateRetentionScore m now))
                   (shortTerm st))
  /\ StronglySorted (fun a b => scoreOf a >= scoreOf b) ranked
  /\ shortTerm st' = firstn 35 ranked
  /\ List.length (shortTerm st') = 35%nat
  /\ longTerm st' = longTerm st ++ firstn 20 (skipn 35 ranked)
  /\ archive st' =
       sweepArchive now (archive st)
       ++ filter (fun m => Rgtb (scoreOf m) 0.3) (skipn 55 ranked).
Proof.
  intros Hlen ranked st'.
  split; [apply retentionRanking_perm |].
  split; [apply retentionRanking_sorted |].
  unfold st', compressMemories; rewrite compress_large by assumption.
  cbn [shortTerm longTerm archive]; fold ranked.
  repeat split.
  - rewrite length_firstn; unfold ranked; rewrite retentionRanking_length; lia.
  - unfold sweepArchive; rewrite filter_app; f_equal.
    apply (sweep_worthy now st 55).
Qed.

Lemma compress_promotion_witness :
  List.length (shortTerm (compressMemories 0 crowdedStore)) = 35%nat.
Proof.
  refine (proj1 (proj2 (proj2 (proj2 (compress_promotion 0 crowdedStore _))))).
  unfold crowdedStore, stateOf; cbn [shortTerm].
  rewrite length_map, length_seq; lia.
Defined.

(** C5, as the code has it.  The sweep of a compression removes every
    archive record that is 30 days old or older and whose importance is not
    above 0.8, and retains every archive record that is less than 30 days
    old or whose importance is above 0.8. *)
Theorem archive_sweep (now : Z) (st : MemorySystemState) (m : MemoryItem) :
  In m (archive st) ->
  ((thirtyDays <= now - timestamp m)%Z -> importance m <= 0.8 ->
   ~ In m (archive (compressMemories now st)))
  /\ ((now - timestamp m < thirtyDays)%Z \/ importance m > 0.8 ->
      In m (archive (compressMemories now st))).
Proof.
  intros Hin; unfold compressMemories.
  destruct (compress_archive now st) as (extra & -> & Hextra); split.
  - intros Hage Himp H; apply in_app_or in H; destruct H as [H | H].
    + apply sweepArchive_In in H; destruct H as [_ [H | H]]; [lia | lra].
    + rewrite <- Hextra in H.
      apply sweepArchive_In in H; destruct H as [_ [H | H]]; [lia | lra].
  - intros H; apply in_or_app; left; apply sweepArchive_In; auto.
Qed.

(** The two records of the design document: 31 days after their creation,
    the record of importance 0.5 is removed and the record of importance
    0.9 is retained. *)
Lemma archive_sweep_witness :
  ~ In oldLow (archive (compressMemories day31 agedStore))
  /\ In oldHigh (archive (compressMemories day31 agedStore)).
Proof.
  split.
  - refine (proj1 (archive_sweep day31 agedStore oldLow _) _ _).
    + simpl; auto.
    + unfold thirtyDays, day31; simpl; lia.
    + simpl; lra.
  - refine (proj2 (archive_sweep day31 agedStore oldHigh _) _).
    + simpl; auto.
    + right; simpl; lra.
Defined.

(** C5 as stated fails on the boundary: a record of importance 0.5 that is
    exactly 30 days old, hence at most 30 days old, is removed. *)
Lemma archive_sweep_boundary :
  In oldLow (archive agedStore)
  /\ (thirtyDays - timestamp oldLow <= thirtyDays)%Z
  /\ ~ In oldLow (archive (compressMemories thirtyDays agedStore)).
Proof.
  split; [simpl; auto |].
  split; [simpl; lia |].
  unfold compressMemories; rewrite compress_small by (simpl; lia).
  cbn [archive]; intros H.
  apply sweepArchive_In in H; destruct H as [_ [H | H]].
  - simpl in H; unfold thirtyDays in H; lia.
  - simpl in H; lra.
Qed.

(** ** Storage *)

Lemma similarity_same (content1 content2 : JSON) :
  stringify content1 = stringify content2 ->
  calculateSimilarity content1 content2 = 1.
Proof.
  intros E; unfold calculateSimilarity; rewrite E.
  now rewrite String.eqb_refl.
Qed.

Lemma similarity_disjoint (content1 content2 : JSON) :
  disjointWords content1 content2 = true ->
  calculateSimilarity content1 content2 = 0.
Proof.
  unfold disjointWords, calculateSimilarity.
  intros H; apply andb_true_iff in H; destruct H as [H1 H2].
  apply negb_true_iff in H1; rewrite H1.
  apply Nat.eqb_eq in H2; rewrite H2; simpl.
  unfold Rdiv; apply Rmult_0_l.
Qed.

Lemma isDuplicate_true (st : MemorySystemState) (item : MemoryItem) :
  isDuplicate st item = true
  <-> exists existing,
        In existing (shortTerm st)
        /\ calculateSimilarity (content existing) (content item) > 0.9.
Proof.
  unfold isDuplicate; rewrite existsb_exists.
  split; intros (e & H1 & H2); exists e; split; auto; now apply Rgtb_true.
Qed.

Lemma isDuplicate_false (st : MemorySystemState) (item : MemoryItem) :
  isDuplicate st item = false
  <-> forall existing,
        In existing (shortTerm st) ->
        calculateSimilarity (content existing) (content item) <= 0.9.
Proof.
  split.
  - intros H e He.
    destruct (Rle_lt_dec (calculateSimilarity (content e) (content item)) 0.9) as [| Hgt];
      [assumption |].
    assert (isDuplicate st item = true) by (apply isDuplicate_true; exists e; auto).
    congruence.
  - intros H; destruct (isDuplicate st item) eqn:E; [| reflexivity].
    apply isDuplicate_true in E; destruct E as (e & He & Hgt).
    specialize (H e He); lra.
Qed.

Lemma store_duplicate_unchanged (now : Z) (item : MemoryItem) (st : MemorySystemState) :
  isDuplicate st item = true -> storeMemory now item st = st.
Proof. intros H; unfold storeMemory; now rewrite H. Qed.

Lemma store_fresh (now : Z) (item : MemoryItem) (st : MemorySystemState) :
  isDuplicate st item = false ->
  storeMemory now item st =
    if (100 <? Z.of_nat (List.length (shortTerm (appendItem item st))))%Z
    then compressMemoriesInternal now (appendItem item st)
    else appendItem item st.
Proof.
  intros H; unfold storeMemory; rewrite H; cbn [negb].
  fold (appendItem item st); now rewrite Z.gtb_ltb.
Qed.

(** C4.  When the similarity of the item to a short-term record exceeds
    0.9, the store leaves the whole state as it was; and an item whose
    serialized content is the one of a short-term record has similarity 1
    to it. *)
Theorem store_duplicate (now : Z) (item existing : MemoryItem) (st : MemorySystemState) :
  In existing (shortTerm st) ->
  (stringify (content existing) = stringify (content item) ->
   calculateSimilarity (content existing) (content item) = 1)
  /\ (calculateSimilarity (content existing) (content item) > 0.9 ->
      storeMemory now item st = st).
Proof.
  intros Hin; split.
  - apply similarity_same.
  - intros Hsim; apply store_duplicate_unchanged, isDuplicate_true.
    now exists existing.
Qed.

Lemma store_duplicate_witness : storeMemory 0 alphaAgain alphaStore = alphaStore.
Proof.
  assert (Hin : In alpha (shortTerm alphaStore)) by (simpl; auto).
  destruct (store_duplicate 0 alphaAgain alpha alphaStore Hin) as [Hsame Hnoop].
  apply Hnoop; rewrite Hsame; [lra | reflexivity].
Defined.

Lemma compress_shortTerm_length (now : Z) (st : MemorySystemState) :
  (List.length (shortTerm (compressMemoriesInternal now st))
   <= Nat.min 50 (List.length (shortTerm st)))%nat.
Proof.
  destruct (Nat.le_gt_cases (List.length (shortTerm st)) 50) as [H | H].
  - rewrite compress_small by assumption; cbn [shortTerm]; lia.
  - rewrite compress_large by assumption; cbn [shortTerm].
    rewrite length_firstn; lia.
Qed.

Lemma store_shortTerm_length (now : Z) (item : MemoryItem) (st : MemorySystemState) :
  (List.length (shortTerm st) <= 100)%nat ->
  (List.length (shortTerm (storeMemory now item st)) <= 100)%nat.
Proof.
  intros H; destruct (isDuplicate st item) eqn:E.
  - now rewrite store_duplicate_unchanged.
  - rewrite store_fresh by assumption.
    destruct (Z.ltb_spec 100 (Z.of_nat (List.length (shortTerm (appendItem item st))))).
    + pose proof (compress_shortTerm_length now (appendItem item st)); lia.
    + lia.
Qed.

Lemma step_shortTerm_length (st st' : MemorySystemState) :
  step st st' ->
  (List.length (shortTerm st) <= 100)%nat -> (List.length (shortTerm st') <= 100)%nat.
Proof.
  intros [now item s | now query o seen s | now s] H.
  - now apply store_shortTerm_length.
  - cbn [retrieveMemories snd updateAccessCounts shortTerm]; now rewrite length_map.
  - unfold compressMemories.
    pose proof (compress_shortTerm_length now s); lia.
Qed.

Lemma reachable_shortTerm_length (config : MemoryConfig) (st : MemorySystemState) :
  reachable config st -> (List.length (shortTerm st) <= 100)%nat.
Proof.
  unfold reachable; induction 1 as [| st' st'' _ IH Hstep].
  - simpl; lia.
  - now apply (step_shortTerm_length st' st'').
Qed.

(** The numbered records share no word with one another: each one can be
    stored after the ones before it, and the store that holds the first
    hundred of them is a state of a store built with the defaults. *)
Lemma numbered_disjoint :
  forallb (fun n =>
             forallb (fun i => disjointWords (JNum (Z.of_nat i)) (JNum (Z.of_nat n)))
                     (seq 0 n))
          (seq 0 101) = true.
Proof. vm_compute; reflexivity. Qed.

Lemma numbered_fresh (n : nat) :
  (n <= 100)%nat ->
  isDuplicate (stateOf (map numbered (seq 0 n)) [] []) (numbered n) = false.
Proof.
  intros Hn; apply isDuplicate_false; intros existing Hin.
  unfold stateOf in Hin; cbn [shortTerm] in Hin.
  apply in_map_iff in Hin; destruct Hin as (i & <- & Hi).
  pose proof numbered_disjoint as H.
  rewrite forallb_forall in H; specialize (H n).
  rewrite forallb_forall in H.
  rewrite (similarity_disjoint (content (numbered i)) (content (numbered n))); [lra |].
  apply H; [apply in_seq; lia | assumption].
Qed.

Lemma numbered_reachable (n : nat) :
  (n <= 100)%nat -> reachable defaultConfig (stateOf (map numbered (seq 0 n)) [] []).
Proof.
  unfold reachable; induction n as [| n IH]; intros Hn.
  - apply later_now.
  - apply later_step with (stateOf (map numbered (seq 0 n)) [] []); [apply IH; lia |].
    replace (stateOf (map numbered (seq 0 (S n))) [] [])
      with (storeMemory 0 (numbered n) (stateOf (map numbered (seq 0 n)) [] []));
      [apply step_store |].
    rewrite store_fresh by (apply numbered_fresh; lia).
    unfold stateOf; cbn [appendItem shortTerm longTerm archive compressionRatio
                           stateRetentionScore cyclicCleanup].
    rewrite length_app, length_map, length_seq; cbn [List.length].
    destruct (Z.ltb_spec 100 (Z.of_nat (n + 1))); [lia |].
    now rewrite seq_S, map_app.
Qed.

Lemma fullStore_fresh : isDuplicate fullStore (numbered 100) = false.
Proof. apply (numbered_fresh 100); lia. Qed.

Lemma fullStore_reachable : reachable defaultConfig fullStore.
Proof. apply (numbered_reachable 100); lia. Qed.

(** C8.  A store of an item that is no duplicate appends it to
    [shortTerm]; the compression runs within the call exactly when
    [shortTerm] then holds more than 100 records; and after any store on a
    store's state, [shortTerm] holds at most 100 records. *)
Theorem store_compression_trigger
        (config : MemoryConfig) (now : Z) (item : MemoryItem) (st : MemorySystemState) :
  reachable config st ->
  ((forall existing,
       In existing (shortTerm st) ->
       calculateSimilarity (content existing) (content item) <= 0.9) ->
   shortTerm (appendItem item st) = shortTerm st ++ [item]
   /\ ((100 < List.length (shortTerm st ++ [item]))%nat ->
       storeMemory now item st = compressMemoriesInternal now (appendItem item st))
   /\ ((List.length (shortTerm st ++ [item]) <= 100)%nat ->
       storeMemory now item st = appendItem item st))
  /\ (List.length (shortTerm (storeMemory now item st)) <= 100)%nat.
Proof.
  intros Hreach; split.
  - intros Hfresh; apply isDuplicate_false in Hfresh.
    rewrite store_fresh by assumption; cbn [appendItem shortTerm].
    split; [reflexivity |].
    split; intros Hlen;
      destruct (Z.ltb_spec 100 (Z.of_nat (List.length (shortTerm st ++ [item]))));
      (reflexivity || lia).
  - apply store_shortTerm_length, (reachable_shortTerm_length config), Hreach.
Qed.

Lemma store_compression_trigger_witness :
  storeMemory 0 (numbered 100) fullStore
  = compressMemoriesInternal 0 (appendItem (numbered 100) fullStore)
  /\ (List.length (shortTerm (storeMemory 0 (numbered 100) fullStore)) <= 100)%nat.
Proof.
  destruct (store_compression_trigger defaultConfig 0 (numbered 100) fullStore
              fullStore_reachable) as [Hfresh Hbound].
  split; [| exact Hbound].
  apply Hfresh.
  - apply isDuplicate_false, fullStore_fresh.
  - unfold fullStore, stateOf; cbn [shortTerm].
    rewrite length_app, length_map, length_seq; simpl; lia.
Defined.

(** ** The long-term tier *)

Lemma withAccessCount_same (m : MemoryItem) : withAccessCount m (accessCount m) = m.
Proof. now destruct m. Qed.

Lemma carried_refl (m : MemoryItem) : carried m m.
Proof. split; [now rewrite withAccessCount_same | lia]. Qed.

Lemma carried_trans (m1 m2 m3 : MemoryItem) :
  carried m1 m2 -> carried m2 m3 -> carried m1 m3.
Proof.
  intros [E1 H1] [E2 H2]; split; [| lia].
  rewrite E2 at 1; rewrite E1; reflexivity.
Qed.

Lemma touch_carried (ids : list string) (m : MemoryItem) : carried m (touch ids m).
Proof.
  unfold touch; destruct (inList (id m) ids); [| apply carried_refl].
  split; simpl; [reflexivity | lia].
Qed.

Lemma map_touch_carried (ids : list string) (l : list MemoryItem) :
  Forall2 carried l (map (touch ids) l).
Proof. induction l; simpl; constructor; auto using touch_carried. Qed.

Lemma Forall2_carried_refl (l : list MemoryItem) : Forall2 carried l l.
Proof. induction l; constructor; auto using carried_refl. Qed.

Lemma Forall2_carried_trans (l1 l2 l3 : list MemoryItem) :
  Forall2 carried l1 l2 -> Forall2 carried l2 l3 -> Forall2 carried l1 l3.
Proof.
  intros H; revert l3; induction H as [| a b l1 l2 Hab _ IH]; intros l3 H3.
  - inversion H3; constructor.
  - inversion H3 as [| b' c l2' l3' Hbc Hrest]; subst.
    constructor; [now apply carried_trans with b | now apply IH].
Qed.

Lemma extended_refl (l : list MemoryItem) : extended l l.
Proof.
  exists l, []; split; [now rewrite app_nil_r | apply Forall2_carried_refl].
Qed.

Lemma extended_app (l extra : list MemoryItem) : extended l (l ++ extra).
Proof. exists l, extra; split; [reflexivity | apply Forall2_carried_refl]. Qed.

Lemma extended_trans (l1 l2 l3 : list MemoryItem) :
  extended l1 l2 -> extended l2 l3 -> extended l1 l3.
Proof.
  intros (k & e & -> & Hk) (k' & e' & -> & Hk').
  apply Forall2_app_inv_l in Hk'; destruct Hk' as (k1 & k2 & Hk1 & Hk2 & ->).
  exists k1, (k2 ++ e'); split; [now rewrite app_assoc |].
  now apply Forall2_carried_trans with k.
Qed.

Lemma compress_longTerm (now : Z) (st : MemorySystemState) :
  exists extra,
    longTerm (compressMemoriesInternal now st) = longTerm st ++ extra
    /\ ((List.length (shortTerm st) <= 50)%nat -> extra = [])
    /\ ((50 < List.length (shortTerm st))%nat ->
        List.length extra = Nat.min 20 (List.length (shortTerm st) - 35)).
Proof.
  destruct (Nat.le_gt_cases (List.length (shortTerm st)) 50) as [H | H].
  - exists []; rewrite compress_small by assumption; cbn [longTerm].
    rewrite app_nil_r; repeat split; lia.
  - exists (firstn 20 (skipn 35 (retentionRanking now st))).
    rewrite compress_large by assumption; cbn [longTerm].
    split; [reflexivity |]; split; [lia |]; intros _.
    now rewrite length_firstn, length_skipn, retentionRanking_length.
Qed.

Lemma store_longTerm (now : Z) (item : MemoryItem) (st : MemorySystemState) :
  exists extra,
    longTerm (storeMemory now item st) = longTerm st ++ extra
    /\ (isDuplicate st item = true \/ (List.length (shortTerm st) < 100)%nat ->
        extra = []).
Proof.
  destruct (isDuplicate st item) eqn:E.
  - exists []; rewrite store_duplicate_unchanged, app_nil_r by assumption; auto.
  - rewrite store_fresh by assumption.
    destruct (Z.ltb_spec 100 (Z.of_nat (List.length (shortTerm (appendItem item st)))))
      as [H | H]; cbn [appendItem shortTerm] in H; rewrite length_app in H; simpl in H.
    + destruct (compress_longTerm now (appendItem item st)) as (extra & -> & _).
      exists extra; split; [reflexivity |].
      intros [H' | H']; [discriminate | lia].
    + exists []; cbn [appendItem longTerm]; rewrite app_nil_r; auto.
Qed.

Lemma step_longTerm (st st' : MemorySystemState) :
  step st st' -> extended (longTerm st) (longTerm st').
Proof.
  intros [now item s | now query o seen s | now s].
  - destruct (store_longTerm now item s) as (extra & -> & _); apply extended_app.
  - cbn [retrieveMemories snd updateAccessCounts longTerm].
    exists (map (touch (map (fun m => id (memory m))
                            (slice (scoredMemories now query o seen) 0 (optLimit o))))
                (longTerm s)), [].
    split; [now rewrite app_nil_r | apply map_touch_carried].
  - unfold compressMemories.
    destruct (compress_longTerm now s) as (extra & -> & _); apply extended_app.
Qed.

(** C10, as the code has it.  No operation removes a record from
    [longTerm]: a store appends to it the records that its compression
    promotes, and nothing when the item is a duplicate or [shortTerm] held
    fewer than 100 records; a retrieval only raises access counts, in
    place; a compression only appends; so over any sequence of calls every
    long-term record stays, in its place, followed by the later ones. *)
Theorem longTerm_never_shrinks :
  (forall now item st,
      exists extra,
        longTerm (storeMemory now item st) = longTerm st ++ extra
        /\ (isDuplicate st item = true \/ (List.length (shortTerm st) < 100)%nat ->
            extra = []))
  /\ (forall now query o seen st,
         Forall2 carried (longTerm st)
                 (longTerm (snd (retrieveMemories now query o seen) st)))
  /\ (forall now st,
         exists extra, longTerm (compressMemories now st) = longTerm st ++ extra)
  /\ (forall st st', later st st' -> extended (longTerm st) (longTerm st')).
Proof.
  split; [exact store_longTerm |].
  split; [intros; apply map_touch_carried |].
  split.
  - intros now st; destruct (compress_longTerm now st) as (extra & E & _).
    now exists extra.
  - intros st st'; induction 1 as [| s s' _ IH Hstep].
    + apply extended_refl.
    + apply extended_trans with (longTerm s); [assumption | now apply step_longTerm].
Qed.

Lemma longTerm_never_shrinks_witness :
  extended (longTerm fullStore) (longTerm (storeMemory 0 (numbered 100) fullStore)).
Proof.
  refine (proj2 (proj2 (proj2 longTerm_never_shrinks)) fullStore _ _).
  apply later_step with fullStore; [apply later_now | apply step_store].
Defined.

(** C10 as stated fails for [storeMemory]: in a store that holds a hundred
    records, the store of one more runs the compression, which promotes 20
    records to [longTerm]. *)
Lemma store_extends_longTerm :
  reachable defaultConfig fullStore
  /\ longTerm fullStore = []
  /\ List.length (longTerm (storeMemory 0 (numbered 100) fullStore)) = 20%nat
  /\ longTerm (storeMemory 0 (numbered 100) fullStore) <> longTerm fullStore.
Proof.
  split; [apply fullStore_reachable |].
  split; [reflexivity |].
  assert (H20 : List.length (longTerm (storeMemory 0 (numbered 100) fullStore)) = 20%nat);
    [| split; [exact H20 | intros E; rewrite E in H20; discriminate]].
  assert (Hlen : List.length (shortTerm (appendItem (numbered 100) fullStore)) = 101%nat).
  { unfold fullStore, stateOf; cbn [appendItem shortTerm].
    now rewrite length_app, length_map, length_seq. }
  rewrite store_fresh by apply fullStore_fresh.
  rewrite Hlen; change (100 <? Z.of_nat 101)%Z with true; cbv iota.
  destruct (compress_longTerm 0 (appendItem (numbered 100) fullStore))
    as (extra & -> & _ & Hextra).
  rewrite Hlen in Hextra; cbn [appendItem longTerm fullStore stateOf app].
  rewrite Hextra by lia; reflexivity.
Qed.

(** ** Retrieval *)

Lemma in_firstn {A : Type} (n : nat) (l : list A) (x : A) :
  In x (firstn n l) -> In x l.
Proof.
  intros H; rewrite <- (firstn_skipn n l); apply in_or_app; now left.
Qed.

Lemma in_skipn {A : Type} (n : nat) (l : list A) (x : A) :
  In x (skipn n l) -> In x l.
Proof.
  intros H; rewrite <- (firstn_skipn n l); apply in_or_app; now right.
Qed.

Lemma StronglySorted_firstn {A : Type} (ord : A -> A -> Prop) (n : nat) (l : list A) :
  StronglySorted ord l -> StronglySorted ord (firstn n l).
Proof.
  intros H; revert n; induction H as [| x l Hs IH Hall]; intros [| n]; simpl;
    try constructor; auto.
  apply Forall_forall; intros y Hy.
  rewrite Forall_forall in Hall; apply Hall.
  rewrite <- (firstn_skipn n l); apply in_or_app; now left.
Qed.

Lemma scoredMemories_In (now : Z) (query : string) (o : MemoryRetrievalOptions)
      (st : MemorySystemState) (r : ScoredMemory) :
  In r (scoredMemories now query o st)
  <-> In (memory r) (allMemories (optIncludeArchived o) st)
      /\ relevanceScore r = calculateRelevance now query (memory r)
      /\ relevanceScore r >= optThreshold o.
Proof.
  unfold scoredMemories; rewrite sortWith_In, filter_In, in_map_iff, Rgeb_true.
  split.
  - intros [(m & <- & Hm) Hge]; simpl; auto.
  - intros (Hm & Hrel & Hge); split; [| assumption].
    exists (memory r); split; [| assumption].
    destruct r as [m rel]; simpl in *; now subst.
Qed.

Lemma scoredMemories_sorted (now : Z) (query : string) (o : MemoryRetrievalOptions)
      (st : MemorySystemState) :
  match optSortBy o with
  | relevance =>
      StronglySorted (fun a b => relevanceScore a >= relevanceScore b)
                     (scoredMemories now query o st)
  | recency =>
      StronglySorted (fun a b => (timestamp (memory a) >= timestamp (memory b))%Z)
                     (scoredMemories now query o st)
  | byImportance =>
      StronglySorted (fun a b => importance (memory a) >= importance (memory b))
                     (scoredMemories now query o st)
  end.
Proof.
  unfold scoredMemories; destruct (optSortBy o); apply sortWith_sorted;
    unfold retrievalBefore; cbv beta.
  - intros a b H; apply Rltb_true in H; lra.
  - intros a b H; apply Rltb_false in H; lra.
  - intros a b c; lra.
  - intros a b H; apply Z.ltb_lt in H; lia.
  - intros a b H; apply Z.ltb_ge in H; lia.
  - intros a b c; lia.
  - intros a b H; apply Rltb_true in H; lra.
  - intros a b H; apply Rltb_false in H; lra.
  - intros a b c; lra.
Qed.

Lemma retrieve_result (now : Z) (query : string) (o : MemoryRetrievalOptions)
      (st : MemorySystemState) :
  (0 <= optLimit o)%Z ->
  fst (retrieveMemories now query o st)
  = firstn (Z.to_nat (optLimit o)) (scoredMemories now query o st).
Proof. intros H; cbn [retrieveMemories fst]; now apply slice_prefix. Qed.

(** C7.  The list that a retrieval returns holds at most [limit] records,
    for a limit that is a count; each of its records is a record of
    [shortTerm] or [longTerm], or of [archive] when [includeArchived] is
    set, carries its relevance score, and that score is at least
    [threshold]; and the list is sorted by the chosen key: relevance
    descending, newest timestamp first, or importance descending. *)
Theorem retrieve_returns (now : Z) (query : string) (o : MemoryRetrievalOptions)
        (st : MemorySystemState) :
  let result := fst (retrieveMemories now query o st) in
  ((0 <= optLimit o)%Z -> (Z.of_nat (List.length result) <= optLimit o)%Z)
  /\ (forall r, In r result ->
        In (memory r)
           (shortTerm st ++ longTerm st ++ (if optIncludeArchived o then archive st else []))
        /\ relevanceScore r = calculateRelevance now query (memory r)
        /\ relevanceScore r >= optThreshold o)
  /\ match optSortBy o with
     | relevance =>
         StronglySorted (fun a b => relevanceScore a >= relevanceScore b) result
     | recency =>
         StronglySorted (fun a b => (timestamp (memory a) >= timestamp (memory b))%Z) result
     | byImportance =>
         StronglySorted (fun a b => importance (memory a) >= importance (memory b)) result
     end.
Proof.
  intros result; split.
  - intros Hlimit; unfold result; rewrite retrieve_result by assumption.
    rewrite length_firstn; lia.
  - unfold result; cbn [retrieveMemories fst].
    destruct (slice_from_0 (scoredMemories now query o st) (optLimit o)) as (n & ->).
    split.
    + intros r Hr; apply (scoredMemories_In now query o st).
      eapply in_firstn, Hr.
    + pose proof (scoredMemories_sorted now query o st) as Hs.
      destruct (optSortBy o); now apply StronglySorted_firstn.
Qed.

Lemma retrieve_returns_witness :
  (Z.of_nat (List.length (fst (retrieveMemories 0 "alpha" defaultOptions alphaStore))) <= 10)%Z.
Proof.
  refine (proj1 (retrieve_returns 0 "alpha" defaultOptions alphaStore) _).
  unfold optLimit; simpl; lia.
Defined.

(** ** The relevance score *)

Lemma prefix_app (p t : string) : String.prefix p (p ++ t) = true.
Proof.
  induction p as [| c p IH]; simpl; [now destruct t |].
  destruct (Ascii.ascii_dec c c); [assumption | congruence].
Qed.

Lemma includes_unfold (s p : string) :
  includes s p =
    orb (String.prefix p s)
        match s with
        | EmptyString => false
        | String _ s' => includes s' p
        end.
Proof. now destruct s. Qed.

Lemma includes_self_app (p t : string) : includes (p ++ t) p = true.
Proof. now rewrite includes_unfold, prefix_app. Qed.

Lemma includes_cons (c : ascii) (s p : string) :
  includes s p = true -> includes (String c s) p = true.
Proof. intros H; rewrite includes_unfold, H; apply orb_true_r. Qed.

Lemma toLowerCase_app (s t : string) :
  toLowerCase (s ++ t) = (toLowerCase s ++ toLowerCase t)%string.
Proof. induction s; simpl; congruence. Qed.

(** The serialized form of a string without escaped characters contains
    the string. *)
Lemma includes_quoted (q : string) :
  escape q = q -> includes (toLowerCase (stringify (JStr q))) (toLowerCase q) = true.
Proof.
  intros E; cbn [stringify]; unfold quote; rewrite E.
  cbn [toLowerCase]; apply includes_cons.
  rewrite toLowerCase_app; apply includes_self_app.
Qed.

Lemma Rdiv_INR_nonneg (a b : nat) : 0 <= INR a / INR b.
Proof.
  destruct b as [| b].
  - simpl; unfold Rdiv; rewrite Rinv_0; lra.
  - apply Rle_mult_inv_pos; [apply pos_INR | apply lt_0_INR; lia].
Qed.

Lemma ln_nonneg (x : R) : 1 <= x -> 0 <= ln x.
Proof.
  intros [H | <-]; [| rewrite ln_1; lra].
  rewrite <- ln_1; left; apply ln_increasing; lra.
Qed.

(** The closed form of the relevance score, from the values of its tests. *)
Lemma relevance_eval (now : Z) (query : string) (m : MemoryItem)
      (inContent inTags : bool) (overlap words : nat) :
  includes (toLowerCase (stringify (content m))) (toLowerCase query) = inContent ->
  includes (toLowerCase (join " " (tags m))) (toLowerCase query) = inTags ->
  List.length
    (filter (fun word =>
               inList word (splitWhitespace (toLowerCase (stringify (content m)))))
            (splitWhitespace (toLowerCase query))) = overlap ->
  List.length (splitWhitespace (toLowerCase query)) = words ->
  calculateRelevance now query m =
    Rmin 1 (((if inContent then 0.8 else 0) + (if inTags then 0.6 else 0)
             + INR overlap / INR words * 0.4)
            * (1 + importance m * 0.2)
            * (1 + ln (IZR (accessCount m + 1)) * 0.1)
            * Rmax 0.5 (1 - IZR (now - timestamp m) / msPerDay * 0.01)).
Proof.
  intros <- <- <- <-; unfold calculateRelevance.
  destruct (includes (toLowerCase (stringify (content m))) (toLowerCase query));
    destruct (includes (toLowerCase (join " " (tags m))) (toLowerCase query));
    f_equal; ring.
Qed.

(** A record that contains the query, is at most twelve and a half days
    old and has non-negative importance and access count scores at least
    0.7. *)
Lemma relevance_fresh (now : Z) (query : string) (m : MemoryItem) :
  includes (toLowerCase (stringify (content m))) (toLowerCase query) = true ->
  0 <= importance m -> (0 <= accessCount m)%Z ->
  (now - timestamp m <= freshFor)%Z ->
  calculateRelevance now query m >= 0.7.
Proof.
  intros Hinc Himp Hacc Hage.
  rewrite (relevance_eval now query m true _ _ _ Hinc eq_refl eq_refl eq_refl).
  set (tagPart := if includes _ _ then 0.6 else 0).
  assert (Htag : 0 <= tagPart).
  { unfold tagPart.
    destruct (includes (toLowerCase (join " " (tags m))) (toLowerCase query)); lra. }
  set (frac := INR _ / INR _).
  assert (Hfrac : 0 <= frac) by apply Rdiv_INR_nonneg.
  set (l := ln _).
  assert (Hl : 0 <= l).
  { apply ln_nonneg; change 1 with (IZR 1); apply IZR_le; lia. }
  set (d := Rmax 0.5 _).
  assert (Hd : 0.875 <= d).
  { eapply Rle_trans; [| apply Rmax_r].
    assert (IZR (now - timestamp m) <= IZR freshFor) by now apply IZR_le.
    unfold freshFor, msPerDay in *; lra. }
  assert (H1 : 0.8 <= 0.8 + tagPart + frac * 0.4) by lra.
  set (x1 := 0.8 + tagPart + frac * 0.4) in *.
  assert (H2 : 0.8 <= x1 * (1 + importance m * 0.2)) by nra.
  set (x2 := x1 * (1 + importance m * 0.2)) in *.
  assert (H3 : 0.8 <= x2 * (1 + l * 0.1)) by nra.
  set (x3 := x2 * (1 + l * 0.1)) in *.
  assert (H4 : 0.7 <= x3 * d) by nra.
  apply Rle_ge, Rmin_glb; lra.
Qed.

Lemma slice_nil {A : Type} (a b : Z) : slice (@nil A) a b = [].
Proof. unfold slice; now rewrite skipn_nil, firstn_nil. Qed.

Lemma filter_none {A : Type} (f : A -> bool) (l : list A) :
  (forall x, In x l -> f x = false) -> filter f l = [].
Proof.
  induction l as [| x l IH]; intros H; simpl; [reflexivity |].
  rewrite (H x) by (simpl; auto); apply IH; intros; apply H; simpl; auto.
Qed.

Lemma scoredMemories_none (now : Z) (query : string) (o : MemoryRetrievalOptions)
      (st : MemorySystemState) :
  (forall m, In m (allMemories (optIncludeArchived o) st) ->
             calculateRelevance now query m < optThreshold o) ->
  fst (retrieveMemories now query o st) = [].
Proof.
  intros H; cbn [retrieveMemories fst]; unfold scoredMemories.
  rewrite filter_none; [apply slice_nil |].
  intros r Hr; apply in_map_iff in Hr; destruct Hr as (m & <- & Hm).
  apply Rgeb_false; cbn [relevanceScore]; auto.
Qed.

(** The sort leaves a list as it is when the comparator puts no element
    before an earlier one. *)
Lemma sortWith_ordered {A : Type} (before : A -> A -> bool) (l : list A) :
  ForallOrdPairs (fun a b => before b a = false) l -> sortWith before l = l.
Proof.
  induction 1 as [| x l Hx _ IH]; simpl; [reflexivity |].
  rewrite IH; destruct l as [| y l]; simpl; [reflexivity |].
  now rewrite (Forall_inv Hx).
Qed.

Lemma stale_relevance : calculateRelevance day50 "alpha" staleAlpha < 0.7.
Proof.
  rewrite (relevance_eval day50 "alpha" staleAlpha true false 0 1) by reflexivity.
  change (importance staleAlpha) with 0.
  change (accessCount staleAlpha + 1)%Z with 1%Z.
  change (day50 - timestamp staleAlpha)%Z with 4320000000%Z.
  rewrite ln_1; simpl INR; unfold msPerDay.
  eapply Rle_lt_trans; [apply Rmin_r |].
  unfold Rmax; destruct (Rle_dec _ _); lra.
Qed.

Lemma quoted_relevance : calculateRelevance 0 quoted quotedItem < 0.7.
Proof.
  rewrite (relevance_eval 0 quoted quotedItem false false 0 1) by reflexivity.
  simpl INR; eapply Rle_lt_trans; [apply Rmin_r |].
  replace (0 + 0 + 0 / 1 * 0.4) with 0 by lra.
  rewrite !Rmult_0_l; lra.
Qed.

Lemma echo_relevance (m : MemoryItem) :
  In m (shortTerm echoStore) -> calculateRelevance 0 "alpha" m = echoScore m.
Proof.
  intros Hin; unfold echoStore, stateOf in Hin; cbn [shortTerm] in Hin.
  assert (E : importance m = (if String.eqb (id m) "f1" then 0.5 else 0.9)
              /\ accessCount m = 0%Z /\ timestamp m = 0%Z
              /\ includes (toLowerCase (stringify (content m))) "alpha" = true
              /\ includes (toLowerCase (join " " (tags m))) "alpha" = false
              /\ List.length
                   (filter (fun word =>
                              inList word
                                (splitWhitespace (toLowerCase (stringify (content m)))))
                           (splitWhitespace "alpha")) = 0%nat).
  { apply in_app_or in Hin; destruct Hin as [Hin | [<- | []]].
    - apply in_map_iff in Hin; destruct Hin as (i & <- & Hi).
      simpl in Hi.
      repeat (destruct Hi as [<- | Hi]; [repeat split; reflexivity |]).
      destruct Hi.
    - repeat split; reflexivity. }
  destruct E as (Himp & Hacc & Hts & Hc & Ht & Hov).
  rewrite (relevance_eval 0 "alpha" m true false 0 1 Hc Ht Hov eq_refl).
  unfold echoScore; rewrite Himp, Hacc, Hts.
  change (0 + 1)%Z with 1%Z; change (0 - 0)%Z with 0%Z.
  rewrite ln_1; simpl INR; unfold msPerDay.
  rewrite Rmax_right by lra.
  destruct (String.eqb (id m) "f1"); rewrite Rmin_right by lra; lra.
Qed.

(** C6, as the code has it.  A candidate record whose content is the query
    string, when the query has no character that the serialization
    escapes, the record is at most twelve and a half days old and its
    importance and access count are not negative, has a relevance of at
    least 0.7: it passes the threshold 0.7, and the retrieval returns it
    when no more than [limit] records pass. *)
Theorem exact_content_retrieved (now : Z) (query : string) (o : MemoryRetrievalOptions)
        (st : MemorySystemState) (m : MemoryItem) :
  In m (allMemories (optIncludeArchived o) st) ->
  content m = JStr query -> escape query = query ->
  0 <= importance m -> (0 <= accessCount m)%Z ->
  (now - timestamp m <= freshFor)%Z ->
  optThreshold o = 0.7 ->
  calculateRelevance now query m >= 0.7
  /\ In (mkScored m (calculateRelevance now query m)) (scoredMemories now query o st)
  /\ ((List.length (scoredMemories now query o st) <= Z.to_nat (optLimit o))%nat ->
      In (mkScored m (calculateRelevance now query m))
         (fst (retrieveMemories now query o st))).
Proof.
  intros Hin Hcontent Hesc Himp Hacc Hage Hthr.
  assert (Hrel : calculateRelevance now query m >= 0.7).
  { apply relevance_fresh; try assumption.
    rewrite Hcontent; now apply includes_quoted. }
  assert (Hscored : In (mkScored m (calculateRelevance now query m))
                       (scoredMemories now query o st)).
  { apply scoredMemories_In; cbn [memory relevanceScore]; rewrite Hthr; auto. }
  repeat split; try assumption.
  intros Hlen.
  assert (0 <= optLimit o)%Z.
  { destruct (scoredMemories now query o st); [destruct Hscored | simpl in Hlen; lia]. }
  rewrite retrieve_result, firstn_all2; assumption.
Qed.

Lemma exact_content_retrieved_witness :
  calculateRelevance 0 "alpha" freshAlpha >= 0.7.
Proof.
  refine (proj1 (exact_content_retrieved 0 "alpha" thresholdOnly freshStore freshAlpha
                   _ _ _ _ _ _ _)).
  - simpl; auto.
  - reflexivity.
  - reflexivity.
  - simpl; lra.
  - simpl; lia.
  - unfold freshFor; simpl; lia.
  - reflexivity.
Defined.

Lemma echo_result :
  fst (retrieveMemories 0 "alpha" thresholdOnly echoStore)
  = firstn 10 (map (fun m => mkScored m (echoScore m)) (shortTerm echoStore)).
Proof.
  rewrite retrieve_result by (unfold optLimit; simpl; lia).
  change (Z.to_nat (optLimit thresholdOnly)) with 10%nat; f_equal.
  unfold scoredMemories, allMemories.
  change (optIncludeArchived thresholdOnly) with false; cbv iota.
  change (longTerm echoStore) with (@nil MemoryItem); cbn [app]; rewrite app_nil_r.
  rewrite (map_ext_in _ (fun m => mkScored m (echoScore m)))
    by (intros m Hm; now rewrite echo_relevance).
  rewrite forallb_filter_id.
  - apply sortWith_ordered.
    unfold echoStore, stateOf; cbn [shortTerm seq map app].
    repeat (constructor;
            [repeat (constructor;
                     [apply Rltb_false; unfold echoScore; simpl; lra |]);
             constructor |]).
    constructor.
  - apply forallb_forall; intros r Hr.
    apply in_map_iff in Hr; destruct Hr as (m & <- & _).
    apply Rgeb_true; cbn [relevanceScore]; unfold optThreshold, echoScore; simpl.
    destruct (String.eqb (id m) "f1"); lra.
Qed.

(** C6 as stated fails in four ways.  A record whose content is the query
    is not returned by [retrieve(query, {threshold: 0.7})] when it is 50
    days old, when the query has a double quote, when the record is in the
    archive, or when ten records that contain the query score higher. *)
Lemma exact_content_not_retrieved :
  (In staleAlpha (shortTerm staleStore) /\ content staleAlpha = JStr "alpha"
   /\ 0 <= importance staleAlpha /\ (0 <= accessCount staleAlpha)%Z
   /\ fst (retrieveMemories day50 "alpha" thresholdOnly staleStore) = [])
  /\ (In quotedItem (shortTerm quotedStore) /\ content quotedItem = JStr quoted
      /\ 0 <= importance quotedItem /\ (0 <= accessCount quotedItem)%Z
      /\ fst (retrieveMemories 0 quoted thresholdOnly quotedStore) = [])
  /\ (In freshAlpha (archive archivedStore) /\ content freshAlpha = JStr "alpha"
      /\ 0 <= importance freshAlpha /\ (0 <= accessCount freshAlpha)%Z
      /\ fst (retrieveMemories 0 "alpha" thresholdOnly archivedStore) = [])
  /\ (In freshAlpha (shortTerm echoStore)
      /\ ~ In (id freshAlpha)
              (map (fun r => id (memory r))
                   (fst (retrieveMemories 0 "alpha" thresholdOnly echoStore)))).
Proof.
  split; [| split; [| split]].
  - repeat split; try (simpl; (auto || lra || lia)).
    apply scoredMemories_none; intros m [<- | []]; apply stale_relevance.
  - repeat split; try (simpl; (auto || lra || lia)).
    apply scoredMemories_none; intros m [<- | []]; apply quoted_relevance.
  - repeat split; simpl; (auto || lra || lia).
  - split.
    + unfold echoStore, stateOf; cbn [shortTerm]; apply in_or_app; right; simpl; auto.
    + rewrite echo_result; intros Hin; simpl in Hin.
      repeat (destruct Hin as [Hin | Hin]; [discriminate |]); destruct Hin.
Qed.

(** ** Access counts *)

Lemma touch_touchedBy (ids : list string) (m : MemoryItem) :
  touchedBy ids m (touch ids m).
Proof.
  unfold touchedBy, touch; destruct (inList (id m) ids) eqn:E.
  - split; [reflexivity |].
    intros H; exfalso; apply H; now apply inList_In.
  - split; [| reflexivity].
    intros H; apply inList_In in H; congruence.
Qed.

Lemma map_touch_touchedBy (ids : list string) (l : list MemoryItem) :
  Forall2 (touchedBy ids) l (map (touch ids) l).
Proof. induction l; simpl; constructor; auto using touch_touchedBy. Qed.

Lemma touch_twice (ids1 ids2 : list string) (m : MemoryItem) :
  In (id m) ids1 -> In (id m) ids2 ->
  touch ids2 (touch ids1 m) = withAccessCount m (accessCount m + 2).
Proof.
  intros H1 H2; apply inList_In in H1; apply inList_In in H2.
  unfold touch at 2; rewrite H1.
  unfold touch; cbn [id withAccessCount]; rewrite H2.
  unfold withAccessCount; cbn; f_equal; lia.
Qed.

Lemma ranking_origin (now : Z) (st : MemorySystemState) (m' : MemoryItem) :
  In m' (retentionRanking now st) ->
  exists m, In m (shortTerm st) /\ annotated m m'.
Proof.
  intros H; apply sortWith_In, in_map_iff in H; destruct H as (m & <- & Hm).
  exists m; split; [assumption | right; eauto].
Qed.

Lemma compress_origin (now : Z) (st : MemorySystemState) (m' : MemoryItem) :
  In m' (tiers (compressMemoriesInternal now st)) ->
  exists m, In m (tiers st) /\ annotated m m'.
Proof.
  assert (Hsame : In m' (tiers st) -> exists m, In m (tiers st) /\ annotated m m')
    by (intros H; exists m'; split; [assumption | now left]).
  assert (Hshort : In m' (retentionRanking now st) ->
                   exists m, In m (tiers st) /\ annotated m m').
  { intros H; apply ranking_origin in H; destruct H as (m & Hm & Ha).
    exists m; split; [unfold tiers; apply in_or_app; now left | assumption]. }
  unfold tiers in *.
  destruct (Nat.le_gt_cases (List.length (shortTerm st)) 50) as [H | H].
  - rewrite compress_small by assumption; cbn [shortTerm longTerm archive].
    rewrite !in_app_iff; unfold sweepArchive; rewrite filter_In.
    intros [Hin | [Hin | [Hin _]]]; apply Hsame; rewrite !in_app_iff; auto.
  - rewrite compress_large by assumption; cbn [shortTerm longTerm archive].
    rewrite !in_app_iff; unfold sweepArchive; rewrite filter_In, in_app_iff, filter_In.
    intros [Hin | [[Hin | Hin] | [[Hin | [Hin _]] _]]].
    + apply Hshort; eapply in_firstn, Hin.
    + apply Hsame; rewrite !in_app_iff; auto.
    + apply Hshort; eapply in_skipn, in_firstn, Hin.
    + apply Hsame; rewrite !in_app_iff; auto.
    + apply Hshort; eapply in_skipn, Hin.
Qed.

Lemma store_origin (now : Z) (item : MemoryItem) (st : MemorySystemState)
      (m' : MemoryItem) :
  In m' (tiers (storeMemory now item st)) ->
  exists m, (m = item \/ In m (tiers st)) /\ annotated m m'.
Proof.
  assert (Happ : forall m, In m (tiers (appendItem item st)) -> m = item \/ In m (tiers st)).
  { intros m; unfold tiers; cbn [appendItem shortTerm longTerm archive].
    rewrite !in_app_iff; simpl; intuition auto. }
  destruct (isDuplicate st item) eqn:E.
  - rewrite store_duplicate_unchanged by assumption.
    intros H; exists m'; split; [now right | now left].
  - rewrite store_fresh by assumption.
    destruct (100 <? _)%Z.
    + intros H; apply compress_origin in H; destruct H as (m & Hm & Ha).
      exists m; split; [now apply Happ | assumption].
    + intros H; exists m'; split; [now apply Happ | now left].
Qed.

Lemma annotated_access (m m' : MemoryItem) :
  annotated m m' ->
  accessCount m' = accessCount m /\ lastAccessed m' = lastAccessed m.
Proof. intros [-> | (s & ->)]; split; reflexivity. Qed.

Lemma touch_lastAccessed (ids : list string) (l : list MemoryItem) :
  map lastAccessed (map (touch ids) l) = map lastAccessed l.
Proof.
  rewrite map_map; apply map_ext; intros m.
  unfold touch; now destruct (inList (id m) ids).
Qed.

(** C1, as the code has it.  A retrieval adds 1 to the access count of
    every short-term and long-term record whose id is the id of a returned
    record, on the state itself, and changes nothing else in these two
    tiers: it never writes [lastAccessed].  Two retrievals in sequence that
    both return a record add 2.  The records that a store or a compression
    leaves in the tiers are records of the state before, or the stored
    item, with at most a retention score written on them: they have the
    access count and the [lastAccessed] that they had. *)
Theorem retrieval_side_effect :
  (forall now query o seen st,
      let result := fst (retrieveMemories now query o seen) in
      let st' := snd (retrieveMemories now query o seen) st in
      Forall2 (touchedBy (returnedIds result)) (shortTerm st) (shortTerm st')
      /\ Forall2 (touchedBy (returnedIds result)) (longTerm st) (longTerm st')
      /\ map lastAccessed (shortTerm st') = map lastAccessed (shortTerm st)
      /\ map lastAccessed (longTerm st') = map lastAccessed (longTerm st))
  /\ (forall now1 now2 query o seen1 seen2 st i m,
         let first := retrieveMemories now1 query o seen1 in
         let second := retrieveMemories now2 query o seen2 in
         let st'' := snd second (snd first st) in
         In (id m) (returnedIds (fst first)) ->
         In (id m) (returnedIds (fst second)) ->
         (nth_error (shortTerm st) i = Some m ->
          nth_error (shortTerm st'') i
          = Some (withAccessCount m (accessCount m + 2)))
         /\ (nth_error (longTerm st) i = Some m ->
             nth_error (longTerm st'') i
             = Some (withAccessCount m (accessCount m + 2))))
  /\ (forall now item st m',
         In m' (tiers (storeMemory now item st)) ->
         exists m,
           (m = item \/ In m (tiers st))
           /\ annotated m m'
           /\ accessCount m' = accessCount m /\ lastAccessed m' = lastAccessed m)
  /\ (forall now st m',
         In m' (tiers (compressMemories now st)) ->
         exists m,
           In m (tiers st)
           /\ annotated m m'
           /\ accessCount m' = accessCount m /\ lastAccessed m' = lastAccessed m).
Proof.
  split; [| split; [| split]].
  - intros now query o seen st result st'; unfold st', result.
    cbn [retrieveMemories fst snd updateAccessCounts shortTerm longTerm].
    unfold returnedIds.
    repeat split; auto using map_touch_touchedBy, touch_lastAccessed.
  - intros now1 now2 query o seen1 seen2 st i m first second st'' H1 H2.
    unfold st'', second, first in *; unfold returnedIds in *.
    cbn [retrieveMemories fst snd updateAccessCounts shortTerm longTerm] in *.
    split; intros Hi; rewrite !nth_error_map, Hi; cbn [option_map]; f_equal;
      now apply touch_twice.
  - intros now item st m' H; apply store_origin in H; destruct H as (m & Hm & Ha).
    exists m; split; [assumption |]; split; [assumption | now apply annotated_access].
  - intros now st m' H; apply compress_origin in H; destruct H as (m & Hm & Ha).
    exists m; split; [assumption |]; split; [assumption | now apply annotated_access].
Qed.

Lemma retrieve_single (now : Z) (query : string) (o : MemoryRetrievalOptions)
      (st : MemorySystemState) (m : MemoryItem) :
  allMemories (optIncludeArchived o) st = [m] ->
  calculateRelevance now query m >= optThreshold o ->
  (1 <= optLimit o)%Z ->
  fst (retrieveMemories now query o st) = [mkScored m (calculateRelevance now query m)].
Proof.
  intros Hall Hrel Hlimit.
  rewrite retrieve_result by lia; unfold scoredMemories; rewrite Hall.
  cbn [map filter relevanceScore].
  rewrite (proj2 (Rgeb_true _ _) Hrel); cbn [sortWith fold_right insertSorted].
  destruct (Z.to_nat (optLimit o)) eqn:E; [lia |].
  cbn [firstn]; now rewrite firstn_nil.
Qed.

Lemma alpha_first :
  fst (retrieveMemories 1000 "alpha" defaultOptions alphaStore)
  = [mkScored alpha (calculateRelevance 1000 "alpha" alpha)].
Proof.
  apply retrieve_single; [reflexivity | | unfold optLimit; simpl; lia].
  apply relevance_fresh; [reflexivity | simpl; lra | simpl; lia |].
  unfold freshFor; simpl; lia.
Qed.

Lemma alpha_touched :
  snd (retrieveMemories 1000 "alpha" defaultOptions alphaStore) alphaStore
  = stateOf [withAccessCount alpha 1] [] [].
Proof.
  pose proof alpha_first as H.
  cbn [retrieveMemories fst snd] in *; rewrite H; reflexivity.
Qed.

Lemma alpha_second :
  returnedIds
    (fst (retrieveMemories 2000 "alpha" defaultOptions
            (snd (retrieveMemories 1000 "alpha" defaultOptions alphaStore) alphaStore)))
  = ["m1"].
Proof.
  rewrite alpha_touched.
  rewrite (retrieve_single 2000 "alpha" defaultOptions _ (withAccessCount alpha 1));
    [reflexivity | reflexivity | | unfold optLimit; simpl; lia].
  apply relevance_fresh; [reflexivity | simpl; lra | simpl; lia |].
  unfold freshFor; simpl; lia.
Qed.

Lemma retrieval_side_effect_witness :
  nth_error
    (shortTerm
       (snd (retrieveMemories 2000 "alpha" defaultOptions
               (snd (retrieveMemories 1000 "alpha" defaultOptions alphaStore) alphaStore))
            (snd (retrieveMemories 1000 "alpha" defaultOptions alphaStore) alphaStore))) 0
  = Some (withAccessCount alpha 2).
Proof.
  refine (proj1 (proj1 (proj2 retrieval_side_effect)
                   1000%Z 2000%Z "alpha" defaultOptions alphaStore
                   (snd (retrieveMemories 1000 "alpha" defaultOptions alphaStore) alphaStore)
                   alphaStore 0%nat alpha _ _) _).
  - rewrite alpha_first; simpl; auto.
  - rewrite alpha_second; simpl; auto.
  - reflexivity.
Defined.

(** C1 as stated fails.  The retrieval that returns the short-term record
    [alpha] raises its access count and leaves its [lastAccessed] unset;
    the retrieval that returns the archived record [freshAlpha] leaves its
    access count at 0. *)
Lemma retrieval_leaves_lastAccessed :
  (returnedIds (fst (retrieveMemories 1000 "alpha" defaultOptions alphaStore)) = ["m1"]
   /\ map accessCount
          (shortTerm (snd (retrieveMemories 1000 "alpha" defaultOptions alphaStore) alphaStore))
      = [1%Z]
   /\ map lastAccessed
          (shortTerm (snd (retrieveMemories 1000 "alpha" defaultOptions alphaStore) alphaStore))
      = [None])
  /\ (returnedIds (fst (retrieveMemories 1000 "alpha" withArchive archivedStore)) = ["f1"]
      /\ map accessCount
             (archive (snd (retrieveMemories 1000 "alpha" withArchive archivedStore)
                           archivedStore))
         = [0%Z]).
Proof.
  assert (H2 : fst (retrieveMemories 1000 "alpha" withArchive archivedStore)
               = [mkScored freshAlpha (calculateRelevance 1000 "alpha" freshAlpha)]).
  { apply retrieve_single; [reflexivity | | unfold optLimit; simpl; lia].
    apply relevance_fresh; [reflexivity | simpl; lra | simpl; lia |].
    unfold freshFor; simpl; lia. }
  split.
  - rewrite alpha_first, alpha_touched; repeat split; reflexivity.
  - rewrite H2; split; reflexivity.
Qed.

(** ** The scenario of a first use *)

(** A store built with the defaults, one record stored, then retrieved by
    its content: the retrieval returns that record alone, and the
    statistics count one short-term record. *)
Lemma first_use_scenario :
  storeMemory 0 alpha (initialState defaultConfig) = alphaStore
  /\ map memory (fst (retrieveMemories 1000 "alpha" defaultOptions alphaStore)) = [alpha]
  /\ shortTermCount (getMemoryStats alphaStore) = 1%nat
  /\ totalMemories (getMemoryStats alphaStore) = 1%nat.
Proof.
  split; [reflexivity |].
  rewrite alpha_first; repeat split.
Qed.

(** * Further properties of the hook *)

(** ** The similarity of two contents *)

Lemma Rdiv_INR_le_1 (a b : nat) : (a <= b)%nat -> INR a / INR b <= 1.
Proof.
  intros H; destruct b as [| b].
  - simpl; unfold Rdiv; rewrite Rinv_0; lra.
  - assert (Hb : 0 < INR (S b)) by (apply lt_0_INR; lia).
    apply Rmult_le_reg_r with (INR (S b)); [assumption |].
    unfold Rdiv; rewrite Rmult_assoc, Rinv_l, Rmult_1_r, Rmult_1_l by lra.
    now apply le_INR.
Qed.

Lemma common_words_length (words1 words2 : list string) :
  NoDup words1 -> NoDup words2 ->
  List.length (filter (fun x => inList x words2) words1)
  = List.length (filter (fun x => inList x words1) words2).
Proof.
  intros H1 H2; apply Permutation_length, NoDup_Permutation;
    try now apply NoDup_filter.
  intros x; rewrite !filter_In, !inList_In; tauto.
Qed.

Lemma all_words_length (words1 words2 : list string) :
  List.length (nodup string_dec (words1 ++ words2))
  = List.length (nodup string_dec (words2 ++ words1)).
Proof.
  apply Permutation_length, NoDup_Permutation; try apply NoDup_nodup.
  intros x; rewrite !nodup_In, !in_app_iff; tauto.
Qed.

(** X1.  The similarity is a ratio: it lies between 0 and 1. *)
Theorem similarity_range (content1 content2 : JSON) :
  0 <= calculateSimilarity content1 content2 <= 1.
Proof.
  unfold calculateSimilarity.
  destruct (String.eqb _ _); [lra |].
  split; [apply Rdiv_INR_nonneg |].
  apply Rdiv_INR_le_1, NoDup_incl_length.
  - apply NoDup_filter, NoDup_nodup.
  - intros x Hx; apply filter_In in Hx; destruct Hx as [Hx _].
    apply nodup_In, in_or_app; now left.
Qed.

(** X2.  The similarity does not depend on the order of the two contents: the
    duplicate test gives the same answer whichever record came first. *)
Theorem similarity_sym (content1 content2 : JSON) :
  calculateSimilarity content1 content2 = calculateSimilarity content2 content1.
Proof.
  unfold calculateSimilarity; rewrite String.eqb_sym.
  destruct (String.eqb _ _); [reflexivity |].
  rewrite common_words_length by apply NoDup_nodup.
  now rewrite all_words_length.
Qed.

(** ** The relevance of a record *)

(** The score before the multipliers. *)
Lemma match_score_nonneg (inContent inTags : bool) (overlap words : nat) :
  0 <= (if inContent then 0.8 else 0) + (if inTags then 0.6 else 0)
       + INR overlap / INR words * 0.4.
Proof.
  pose proof (Rdiv_INR_nonneg overlap words).
  destruct inContent, inTags; lra.
Qed.

Lemma access_factor (n : Z) : (0 <= n)%Z -> 1 <= 1 + ln (IZR (n + 1)) * 0.1.
Proof.
  intros H.
  assert (0 <= ln (IZR (n + 1)))
    by (apply ln_nonneg; change 1 with (IZR 1); apply IZR_le; lia).
  lra.
Qed.

Lemma recency_factor (d : R) : 0.5 <= Rmax 0.5 (1 - d * 0.01).
Proof. apply Rmax_l. Qed.

(** X4.  The relevance never exceeds 1, and it is not negative when the
    importance and the access count are not. *)
Theorem relevance_range (now : Z) (query : string) (m : MemoryItem) :
  calculateRelevance now query m <= 1
  /\ (0 <= importance m -> (0 <= accessCount m)%Z ->
      0 <= calculateRelevance now query m).
Proof.
  rewrite (relevance_eval now query m _ _ _ _ eq_refl eq_refl eq_refl eq_refl).
  split; [apply Rmin_l |].
  intros Himp Hacc; apply Rmin_glb; [lra |].
  pose proof (match_score_nonneg
                (includes (toLowerCase (stringify (content m))) (toLowerCase query))
                (includes (toLowerCase (join " " (tags m))) (toLowerCase query))
                (List.length
                   (filter (fun word =>
                              inList word
                                (splitWhitespace (toLowerCase (stringify (content m)))))
                           (splitWhitespace (toLowerCase query))))
                (List.length (splitWhitespace (toLowerCase query)))) as Hb.
  pose proof (access_factor (accessCount m) Hacc) as Ha.
  pose proof (recency_factor (IZR (now - timestamp m) / msPerDay)) as Hr.
  repeat apply Rmult_le_pos; lra.
Qed.

Lemma relevance_range_witness : 0 <= calculateRelevance 0 "alpha" alpha.
Proof.
  refine (proj2 (relevance_range 0 "alpha" alpha) _ _).
  - simpl; lra.
  - simpl; lia.
Defined.





Lemma includes_empty (s : string) : includes s EmptyString = true.
Proof. rewrite includes_unfold; now destruct s. Qed.

(** X6.  The empty query matches every record: each candidate whose importance
    and access count are not negative scores at least 0.7, whatever its
    age, and passes every threshold up to 0.7. *)
Theorem empty_query_matches_all (now : Z) (o : MemoryRetrievalOptions)
        (st : MemorySystemState) (m : MemoryItem) :
  In m (allMemories (optIncludeArchived o) st) ->
  0 <= importance m -> (0 <= accessCount m)%Z ->
  optThreshold o <= 0.7 ->
  calculateRelevance now EmptyString m >= 0.7
  /\ In (mkScored m (calculateRelevance now EmptyString m))
        (scoredMemories now EmptyString o st).
Proof.
  intros Hin Himp Hacc Hthr.
  assert (Hrel : calculateRelevance now EmptyString m >= 0.7).
  { rewrite (relevance_eval now EmptyString m true true _ _
               (includes_empty _) (includes_empty _) eq_refl eq_refl).
    set (frac := INR _ / INR _).
    assert (Hfrac : 0 <= frac) by apply Rdiv_INR_nonneg.
    pose proof (access_factor (accessCount m) Hacc) as Ha.
    pose proof (recency_factor (IZR (now - timestamp m) / msPerDay)) as Hr.
    set (a := 1 + ln _ * 0.1) in *; set (d := Rmax 0.5 _) in *.
    assert (H1 : 1.4 <= 0.8 + 0.6 + frac * 0.4) by lra.
    set (x1 := 0.8 + 0.6 + frac * 0.4) in *.
    assert (H2 : 1.4 <= x1 * (1 + importance m * 0.2)) by nra.
    set (x2 := x1 * (1 + importance m * 0.2)) in *.
    assert (H3 : 1.4 <= x2 * a) by nra.
    set (x3 := x2 * a) in *.
    assert (H4 : 0.7 <= x3 * d) by nra.
    apply Rle_ge, Rmin_glb; lra. }
  split; [exact Hrel |].
  apply scoredMemories_In; cbn [memory relevanceScore]; repeat split; auto; lra.
Qed.

Lemma empty_query_matches_all_witness :
  calculateRelevance day50 EmptyString staleAlpha >= 0.7.
Proof.
  refine (proj1 (empty_query_matches_all day50 defaultOptions staleStore staleAlpha
                   _ _ _ _)).
  - simpl; auto.
  - simpl; lra.
  - simpl; lia.
  - unfold optThreshold; simpl; lra.
Defined.

Lemma ln_le_compat (x y : R) : 0 < x -> x <= y -> ln x <= ln y.
Proof.
  intros Hx [H | <-]; [left; now apply ln_increasing | right; reflexivity].
Qed.

(** One more access does not lower the relevance. *)
Lemma touch_relevance (now : Z) (query : string) (ids : list string) (m : MemoryItem) :
  0 <= importance m -> (0 <= accessCount m)%Z ->
  calculateRelevance now query m <= calculateRelevance now query (touch ids m).
Proof.
  intros Himp Hacc; unfold touch; destruct (inList (id m) ids); [| lra].
  rewrite (relevance_eval now query m _ _ _ _ eq_refl eq_refl eq_refl eq_refl).
  rewrite (relevance_eval now query (withAccessCount m (accessCount m + 1)) _ _ _ _
             eq_refl eq_refl eq_refl eq_refl).
  cbn [withAccessCount content tags importance accessCount timestamp].
  pose proof (match_score_nonneg
                (includes (toLowerCase (stringify (content m))) (toLowerCase query))
                (includes (toLowerCase (join " " (tags m))) (toLowerCase query))
                (List.length
                   (filter (fun word =>
                              inList word
                                (splitWhitespace (toLowerCase (stringify (content m)))))
                           (splitWhitespace (toLowerCase query))))
                (List.length (splitWhitespace (toLowerCase query)))) as Hb.
  set (b := _ + _ + _ * 0.4) in *.
  pose proof (recency_factor (IZR (now - timestamp m) / msPerDay)) as Hr.
  set (d := Rmax 0.5 _) in *.
  assert (Hln : ln (IZR (accessCount m + 1)) <= ln (IZR (accessCount m + 1 + 1))).
  { apply ln_le_compat; [apply IZR_lt; lia | apply IZR_le; lia]. }
  assert (H0 : 0 <= ln (IZR (accessCount m + 1)))
    by (apply ln_nonneg; change 1 with (IZR 1); apply IZR_le; lia).
  apply Rle_min_compat_l.
  apply Rmult_le_compat_r; [lra |].
  apply Rmult_le_compat_l; [apply Rmult_le_pos; lra | lra].
Qed.

(** X7.  A retrieval does not push a record below the threshold: a short-term or
    long-term record that passes it still passes it, at the same reading
    of the clock, in the state that the retrieval leaves. *)
Theorem retrieval_keeps_survivors (now : Z) (query : string)
        (o : MemoryRetrievalOptions) (seen st : MemorySystemState) (m : MemoryItem) :
  In m (shortTerm st ++ longTerm st) ->
  0 <= importance m -> (0 <= accessCount m)%Z ->
  calculateRelevance now query m >= optThreshold o ->
  let st' := snd (retrieveMemories now query o seen) st in
  exists m',
    In m' (shortTerm st' ++ longTerm st')
    /\ carried m m'
    /\ calculateRelevance now query m' >= optThreshold o.
Proof.
  intros Hin Himp Hacc Hrel st'; unfold st'.
  cbn [retrieveMemories snd updateAccessCounts shortTerm longTerm].
  set (ids := map _ (slice _ 0 _)).
  exists (touch ids m); split; [| split].
  - rewrite <- map_app; now apply in_map.
  - apply touch_carried.
  - pose proof (touch_relevance now query ids m Himp Hacc); lra.
Qed.

Lemma retrieval_keeps_survivors_witness :
  exists m',
    In m' (shortTerm (snd (retrieveMemories 1000 "alpha" defaultOptions alphaStore) alphaStore)
           ++ longTerm (snd (retrieveMemories 1000 "alpha" defaultOptions alphaStore)
                            alphaStore))
    /\ carried alpha m'
    /\ calculateRelevance 1000 "alpha" m' >= 0.7.
Proof.
  refine (retrieval_keeps_survivors 1000 "alpha" defaultOptions alphaStore alphaStore alpha
            _ _ _ _).
  - simpl; auto.
  - simpl; lra.
  - simpl; lia.
  - apply relevance_fresh; [reflexivity | simpl; lra | simpl; lia |].
    unfold freshFor; simpl; lia.
Defined.

(** X8.  From the fiftieth day on the age of a record no longer lowers its
    relevance: the recency factor stays at 0.5. *)
Theorem relevance_age_floor (now1 now2 : Z) (query : string) (m : MemoryItem) :
  (day50 <= now1 - timestamp m)%Z -> (day50 <= now2 - timestamp m)%Z ->
  calculateRelevance now1 query m = calculateRelevance now2 query m.
Proof.
  intros H1 H2.
  rewrite (relevance_eval now1 query m _ _ _ _ eq_refl eq_refl eq_refl eq_refl).
  rewrite (relevance_eval now2 query m _ _ _ _ eq_refl eq_refl eq_refl eq_refl).
  assert (Hfloor : forall now, (day50 <= now - timestamp m)%Z ->
                               Rmax 0.5 (1 - IZR (now - timestamp m) / msPerDay * 0.01) = 0.5).
  { intros now H; apply Rmax_left.
    assert (IZR day50 <= IZR (now - timestamp m)) by now apply IZR_le.
    unfold day50, msPerDay in *; simpl in *; lra. }
  now rewrite !Hfloor.
Qed.

Lemma relevance_age_floor_witness :
  calculateRelevance day50 "alpha" staleAlpha
  = calculateRelevance (2 * day50) "alpha" staleAlpha.
Proof.
  refine (relevance_age_floor day50 (2 * day50) "alpha" staleAlpha _ _);
    unfold day50; simpl; lia.
Defined.

(** ** The retention score over time and accesses *)

Lemma tag_factor_pos (m : MemoryItem) (x : R) :
  (if existsb (fun tag => inList tag importantTags) (tags m) then x * 1.5 else x)
  = x * (if existsb (fun tag => inList tag importantTags) (tags m) then 1.5 else 1).
Proof. destruct (existsb _ _); ring. Qed.

(** X9.  The retention score of a record only decays as time passes, when its
    importance and its access count are not negative. *)
Theorem retention_decays (m : MemoryItem) (now1 now2 : Z) :
  (now1 <= now2)%Z -> 0 <= importance m -> (0 <= accessCount m)%Z ->
  calculateRetentionScore m now2 <= calculateRetentionScore m now1.
Proof.
  intros Hnow Himp Hacc; unfold calculateRetentionScore; rewrite !tag_factor_pos.
  set (t := if existsb _ _ then 1.5 else 1).
  assert (Ht : 0 < t) by (unfold t; destruct (existsb _ _); lra).
  assert (Hb : 0 <= importance m + Rmin 0.3 (IZR (accessCount m) * 0.05)).
  { assert (0 <= IZR (accessCount m)) by now apply IZR_le.
    assert (0 <= Rmin 0.3 (IZR (accessCount m) * 0.05)) by (apply Rmin_glb; lra).
    lra. }
  assert (He : exp (- (IZR (now2 - timestamp m) / msPerDay) * 0.1)
               <= exp (- (IZR (now1 - timestamp m) / msPerDay) * 0.1)).
  { apply exp_le_compat.
    assert (IZR (now1 - timestamp m) <= IZR (now2 - timestamp m)) by (apply IZR_le; lia).
    unfold msPerDay; lra. }
  apply Rle_min_compat_l, Rmult_le_compat_r; [lra |].
  now apply Rmult_le_compat_l.
Qed.

Lemma retention_decays_witness :
  calculateRetentionScore alpha day31 <= calculateRetentionScore alpha 0.
Proof.
  refine (retention_decays alpha 0 day31 _ _ _).
  - unfold day31; lia.
  - simpl; lra.
  - simpl; lia.
Defined.

(** X10.  More accesses never lower the retention score, and the accesses after
    the sixth no longer raise it. *)
Theorem retention_access_boost (m : MemoryItem) (n : Z) (now : Z) :
  ((accessCount m <= n)%Z ->
   calculateRetentionScore m now <= calculateRetentionScore (withAccessCount m n) now)
  /\ ((6 <= accessCount m)%Z -> (6 <= n)%Z ->
      calculateRetentionScore (withAccessCount m n) now = calculateRetentionScore m now).
Proof.
  unfold calculateRetentionScore; rewrite !tag_factor_pos.
  cbn [withAccessCount importance accessCount timestamp tags].
  set (t := if existsb _ _ then 1.5 else 1).
  assert (Ht : 0 < t) by (unfold t; destruct (existsb _ _); lra).
  pose proof (exp_pos (- (IZR (now - timestamp m) / msPerDay) * 0.1)) as He.
  set (e := exp _) in *.
  split.
  - intros Hle.
    assert (IZR (accessCount m) <= IZR n) by now apply IZR_le.
    assert (Rmin 0.3 (IZR (accessCount m) * 0.05) <= Rmin 0.3 (IZR n * 0.05))
      by (apply Rle_min_compat_l; lra).
    apply Rle_min_compat_l, Rmult_le_compat_r; [lra |].
    apply Rmult_le_compat_r; lra.
  - intros H6 Hn.
    assert (6 <= IZR (accessCount m)) by (change 6 with (IZR 6); now apply IZR_le).
    assert (6 <= IZR n) by (change 6 with (IZR 6); now apply IZR_le).
    rewrite !(Rmin_left 0.3) by lra; reflexivity.
Qed.

Lemma retention_access_boost_witness :
  calculateRetentionScore alpha 0 <= calculateRetentionScore (withAccessCount alpha 3) 0.
Proof.
  refine (proj1 (retention_access_boost alpha 3 0) _); simpl; lia.
Defined.

(** ** More on compression *)

Lemma sorted_prefix_suffix {A : Type} (ord : A -> A -> Prop) (k : nat) (l : list A)
      (a b : A) :
  StronglySorted ord l -> In a (firstn k l) -> In b (skipn k l) -> ord a b.
Proof.
  intros H; revert k; induction H as [| x l Hs IH Hall]; intros k Ha Hb.
  - rewrite firstn_nil in Ha; destruct Ha.
  - destruct k as [| k]; [destruct Ha |].
    cbn [firstn skipn] in *; destruct Ha as [<- | Ha].
    + rewrite Forall_forall in Hall; eapply Hall, in_skipn, Hb.
    + now apply (IH k).
Qed.

(** X11.  A compression of more than 50 records splits the ranking by score:
    no record that leaves [shortTerm] scores higher than one that stays,
    and no record beyond the promoted ones scores higher than a promoted
    one. *)
Theorem compress_by_rank (now : Z) (st : MemorySystemState) :
  (50 < List.length (shortTerm st))%nat ->
  let ranked := retentionRanking now st in
  let st' := compressMemories now st in
  (forall a b, In a (shortTerm st') -> In b (skipn 35 ranked) -> scoreOf a >= scoreOf b)
  /\ (forall a b,
         In a (skipn (List.length (longTerm st)) (longTerm st')) ->
         In b (skipn 55 ranked) -> scoreOf a >= scoreOf b).
Proof.
  intros Hlen ranked st'; unfold st', compressMemories.
  rewrite compress_large by assumption; cbn [shortTerm longTerm]; fold ranked.
  pose proof (retentionRanking_sorted now st) as Hs; fold ranked in Hs.
  split.
  - intros a b Ha Hb.
    exact (sorted_prefix_suffix _ 35 ranked a b Hs Ha Hb).
  - intros a b Ha Hb.
    rewrite skipn_app, skipn_all, Nat.sub_diag in Ha; cbn [app skipn] in Ha.
    assert (Hs' : StronglySorted (fun a b => scoreOf a >= scoreOf b) (skipn 35 ranked)).
    { clear -Hs; revert Hs; generalize 35%nat; intros k Hs; revert k.
      induction Hs as [| x l Hs IH Hall]; intros [| k]; cbn [skipn];
        try constructor; auto. }
    apply (sorted_prefix_suffix _ 20 (skipn 35 ranked) a b Hs' Ha).
    now rewrite skipn_skipn.
Qed.

Lemma compress_by_rank_witness :
  Forall (fun a =>
            Forall (fun b => scoreOf a >= scoreOf b)
                   (skipn 35 (retentionRanking 0 crowdedStore)))
         (shortTerm (compressMemories 0 crowdedStore)).
Proof.
  assert (Hlen : (50 < List.length (shortTerm crowdedStore))%nat).
  { unfold crowdedStore, stateOf; cbn [shortTerm].
    rewrite length_map, length_seq; lia. }
  apply Forall_forall; intros a Ha; apply Forall_forall; intros b Hb.
  exact (proj1 (compress_by_rank 0 crowdedStore Hlen) a b Ha Hb).
Defined.

(** X12.  After a compression of [n] > 50 records the compression ratio is the
    share of them that are still in a tier: at least 35 out of [n], at
    most 1, and 1 when [n] is at most 55. *)
Theorem compression_ratio_range (now : Z) (st : MemorySystemState) :
  (50 < List.length (shortTerm st))%nat ->
  let n := List.length (shortTerm st) in
  let ratio := compressionRatio (compressMemories now st) in
  35 / INR n <= ratio <= 1 /\ ((n <= 55)%nat -> ratio = 1).
Proof.
  intros Hlen n ratio; unfold ratio, compressMemories.
  rewrite compress_large by assumption; cbn [compressionRatio].
  set (ranked := retentionRanking now st).
  assert (Hn : List.length ranked = n) by apply retentionRanking_length.
  set (worthy := filter _ (skipn 55 ranked)).
  assert (Hw : (List.length worthy <= n - 55)%nat).
  { unfold worthy; rewrite <- Hn, <- length_skipn; apply filter_length_le. }
  rewrite !length_firstn, length_skipn, Hn.
  assert (Hpos : 0 < INR n) by (apply lt_0_INR; lia).
  set (kept := (Nat.min 35 n + Nat.min 20 (n - 35) + List.length worthy)%nat).
  assert (H35 : (35 <= kept)%nat) by (unfold kept; lia).
  assert (Hle : (kept <= n)%nat) by (unfold kept; lia).
  repeat split.
  - unfold Rdiv; apply Rmult_le_compat_r; [left; now apply Rinv_0_lt_compat |].
    replace 35 with (INR 35) by (simpl; lra); now apply le_INR.
  - now apply Rdiv_INR_le_1.
  - intros H55.
    assert (kept = n) by (unfold kept; lia).
    replace (INR kept) with (INR n) by congruence.
    unfold Rdiv; apply Rinv_r; lra.
Qed.

Lemma compression_ratio_range_witness :
  35 / INR (List.length (shortTerm crowdedStore))
  <= compressionRatio (compressMemories 0 crowdedStore) <= 1.
Proof.
  refine (proj1 (compression_ratio_range 0 crowdedStore _)).
  unfold crowdedStore, stateOf; cbn [shortTerm].
  rewrite length_map, length_seq; lia.
Defined.

Lemma filter_twice {A : Type} (f : A -> bool) (l : list A) :
  filter f (filter f l) = filter f l.
Proof.
  apply forallb_filter_id, forallb_forall.
  intros x Hx; now apply filter_In in Hx.
Qed.

(** X13.  A second compression at the same reading of the clock finds nothing to
    do: it only counts one more cycle. *)
Theorem compress_twice (now : Z) (st : MemorySystemState) :
  let once := compressMemories now st in
  compressMemories now once
  = mkState (shortTerm once) (longTerm once) (archive once)
            (compressionRatio once) (stateRetentionScore once)
            (cyclicCleanup once + 1).
Proof.
  intros once; unfold compressMemories at 1.
  assert (Hshort : (List.length (shortTerm once) <= 50)%nat).
  { unfold once, compressMemories.
    pose proof (compress_shortTerm_length now st); lia. }
  rewrite compress_small by assumption; f_equal.
  unfold once, compressMemories.
  destruct (Nat.le_gt_cases (List.length (shortTerm st)) 50) as [H | H].
  - rewrite compress_small by assumption; cbn [archive].
    apply filter_twice.
  - rewrite compress_large by assumption; cbn [archive].
    apply filter_twice.
Qed.

(** X14.  A compression leaves at most 50 short-term records, whatever their
    number was. *)
Theorem compress_bounds_shortTerm (now : Z) (st : MemorySystemState) :
  (List.length (shortTerm (compressMemories now st)) <= 50)%nat
  /\ (List.length (shortTerm (compressMemories now st)) <= List.length (shortTerm st))%nat.
Proof.
  unfold compressMemories.
  pose proof (compress_shortTerm_length now st); lia.
Qed.

(** X15.  A compression of 51 to 55 records loses none: each of them is, with
    its score, in [shortTerm] or among the records appended to [longTerm],
    and the archive receives nothing. *)
Theorem compress_keeps_all (now : Z) (st : MemorySystemState) :
  (50 < List.length (shortTerm st) <= 55)%nat ->
  let st' := compressMemories now st in
  exists promoted,
    longTerm st' = longTerm st ++ promoted
    /\ Permutation (shortTerm st' ++ promoted)
                   (map (fun m => withRetentionScore m (calculateRetentionScore m now))
                        (shortTerm st))
    /\ archive st' = sweepArchive now (archive st).
Proof.
  intros [Hlo Hhi] st'; unfold st', compressMemories.
  rewrite compress_large by assumption; cbn [shortTerm longTerm archive].
  set (ranked := retentionRanking now st).
  assert (Hn : List.length ranked = List.length (shortTerm st))
    by apply retentionRanking_length.
  exists (firstn 20 (skipn 35 ranked)); split; [reflexivity |]; split.
  - rewrite (firstn_all2 (n := 20)) by (rewrite length_skipn; lia).
    rewrite firstn_skipn; apply retentionRanking_perm.
  - rewrite (skipn_all2 (n := 55)) by lia.
    cbn [filter]; now rewrite app_nil_r.
Qed.

Lemma compress_keeps_all_witness :
  exists promoted,
    longTerm (compressMemories 0 snugStore) = longTerm snugStore ++ promoted
    /\ Permutation (shortTerm (compressMemories 0 snugStore) ++ promoted)
                   (map (fun m => withRetentionScore m (calculateRetentionScore m 0))
                        (shortTerm snugStore))
    /\ archive (compressMemories 0 snugStore) = sweepArchive 0 (archive snugStore).
Proof.
  refine (compress_keeps_all 0 snugStore _).
  unfold snugStore, stateOf; cbn [shortTerm].
  rewrite length_map, length_seq; lia.
Defined.

(** ** The cycle counter and the scores of the lower tiers *)

Lemma step_cyclicCleanup (st st' : MemorySystemState) :
  step st st' ->
  cyclicCleanup st' = cyclicCleanup st \/ cyclicCleanup st' = (cyclicCleanup st + 1)%Z.
Proof.
  assert (Hc : forall now s,
             cyclicCleanup (compressMemoriesInternal now s) = (cyclicCleanup s + 1)%Z).
  { intros now s; destruct (Nat.le_gt_cases (List.length (shortTerm s)) 50).
    - now rewrite compress_small.
    - now rewrite compress_large. }
  intros [now item s | now query o seen s | now s].
  - destruct (isDuplicate s item) eqn:E.
    + left; now rewrite store_duplicate_unchanged.
    + rewrite store_fresh by assumption.
      destruct (100 <? _)%Z; [right; now rewrite Hc | now left].
  - now left.
  - right; apply Hc.
Qed.

(** X16.  The cycle counter counts compressions: a call of an operation adds 1
    to it (a compression, or a store that runs one) or leaves it, so it
    never decreases, and it is never negative in a store's history. *)
Theorem cleanup_counter_grows :
  (forall st st',
      step st st' ->
      cyclicCleanup st' = cyclicCleanup st \/ cyclicCleanup st' = (cyclicCleanup st + 1)%Z)
  /\ (forall st st', later st st' -> (cyclicCleanup st <= cyclicCleanup st')%Z)
  /\ (forall config st, reachable config st -> (0 <= cyclicCleanup st)%Z).
Proof.
  assert (Hlater : forall st st', later st st' -> (cyclicCleanup st <= cyclicCleanup st')%Z).
  { intros st st'; induction 1 as [| s s' _ IH Hstep]; [lia |].
    destruct (step_cyclicCleanup s s' Hstep); lia. }
  split; [exact step_cyclicCleanup |].
  split; [exact Hlater |].
  intros config st H; apply Hlater in H; exact H.
Qed.

Lemma ranking_scored (now : Z) (st : MemorySystemState) (m : MemoryItem) :
  In m (retentionRanking now st) ->
  exists s, retentionScore m = Some s /\ s <= 1.
Proof.
  intros H; apply sortWith_In, in_map_iff in H; destruct H as (m0 & <- & _).
  exists (calculateRetentionScore m0 now); split; [reflexivity |].
  unfold calculateRetentionScore; apply Rmin_l.
Qed.

Lemma compress_scoredTiers (now : Z) (st : MemorySystemState) :
  scoredTiers st -> scoredTiers (compressMemoriesInternal now st).
Proof.
  intros [Harch Hlong].
  destruct (Nat.le_gt_cases (List.length (shortTerm st)) 50) as [H | H].
  - rewrite compress_small by assumption; split; cbn [archive longTerm]; [| assumption].
    intros m Hm; apply sweepArchive_In in Hm; now apply Harch.
  - rewrite compress_large by assumption; split; cbn [archive longTerm].
    + intros m Hm; apply sweepArchive_In in Hm; destruct Hm as [Hm _].
      apply in_app_or in Hm; destruct Hm as [Hm | Hm]; [now apply Harch |].
      apply filter_In in Hm; destruct Hm as [Hm Hgt].
      apply in_skipn, ranking_scored in Hm; destruct Hm as (s & Hs & Hle).
      exists s; split; [assumption |].
      apply Rgtb_true in Hgt; unfold scoreOf in Hgt; rewrite Hs in Hgt; lra.
    + intros m Hm; apply in_app_or in Hm; destruct Hm as [Hm | Hm]; [now apply Hlong |].
      now apply in_firstn, in_skipn, ranking_scored in Hm.
Qed.

Lemma step_scoredTiers (st st' : MemorySystemState) :
  step st st' -> scoredTiers st -> scoredTiers st'.
Proof.
  intros [now item s | now query o seen s | now s] Hinv.
  - destruct (isDuplicate s item) eqn:E.
    + now rewrite store_duplicate_unchanged.
    + rewrite store_fresh by assumption.
      destruct (100 <? _)%Z; [apply compress_scoredTiers |]; exact Hinv.
  - destruct Hinv as [Harch Hlong]; split;
      cbn [retrieveMemories snd updateAccessCounts archive longTerm]; [assumption |].
    intros m Hm; apply in_map_iff in Hm; destruct Hm as (m0 & <- & Hm0).
    destruct (Hlong m0 Hm0) as (sc & Hs & Hle); exists sc; split; [| assumption].
    unfold touch; now destruct (inList _ _).
  - now apply compress_scoredTiers.
Qed.

(** X17.  In the history of a store, every long-term record carries the retention
    score it was promoted with, and every archived record one above 0.3:
    no record reaches the archive with a score of 0.3 or less. *)
Theorem lower_tiers_scored (config : MemoryConfig) (st : MemorySystemState) :
  reachable config st ->
  (forall m, In m (archive st) ->
             exists s, retentionScore m = Some s /\ 0.3 < s <= 1)
  /\ (forall m, In m (longTerm st) ->
                exists s, retentionScore m = Some s /\ s <= 1).
Proof.
  unfold reachable; induction 1 as [| s s' _ IH Hstep].
  - split; intros m [].
  - exact (step_scoredTiers s s' Hstep IH).
Qed.

Lemma lower_tiers_scored_witness :
  Forall (fun m => exists s, retentionScore m = Some s /\ s <= 1)
         (longTerm (storeMemory 0 (numbered 100) fullStore)).
Proof.
  apply Forall_forall.
  refine (proj2 (lower_tiers_scored defaultConfig
                   (storeMemory 0 (numbered 100) fullStore) _)).
  apply later_step with fullStore; [apply fullStore_reachable | apply step_store].
Defined.

(** ** Retrievals that touch nothing *)

Lemma touch_miss (ids : list string) (l : list MemoryItem) :
  (forall m, In m l -> ~ In (id m) ids) -> map (touch ids) l = l.
Proof.
  intros H; rewrite <- (map_id l) at 2; apply map_ext_in; intros m Hm.
  unfold touch; destruct (inList (id m) ids) eqn:E; [| reflexivity].
  apply inList_In in E; now apply H in E.
Qed.

(** X19.  A retrieval whose result has the id of no short-term or long-term
    record leaves the whole state as it was: returning archived records
    leaves no trace. *)
Theorem retrieval_without_hits (now : Z) (query : string) (o : MemoryRetrievalOptions)
        (seen st : MemorySystemState) :
  (forall m, In m (shortTerm st ++ longTerm st) ->
             ~ In (id m) (returnedIds (fst (retrieveMemories now query o seen)))) ->
  snd (retrieveMemories now query o seen) st = st.
Proof.
  intros H; cbn [retrieveMemories fst snd] in *; unfold returnedIds in H.
  unfold updateAccessCounts.
  rewrite !touch_miss by (intros m Hm; apply H, in_or_app; auto).
  now destruct st.
Qed.

Lemma retrieval_without_hits_witness :
  snd (retrieveMemories 1000 "alpha" withArchive archivedStore) archivedStore
  = archivedStore.
Proof.
  refine (retrieval_without_hits 1000 "alpha" withArchive archivedStore archivedStore _).
  intros m Hm; simpl in Hm; destruct Hm.
Defined.

(** X20.  With the limit 0 a retrieval returns nothing and changes nothing. *)
Theorem retrieve_limit_zero (now : Z) (query : string) (o : MemoryRetrievalOptions)
        (seen st : MemorySystemState) :
  optLimit o = 0%Z ->
  fst (retrieveMemories now query o seen) = []
  /\ snd (retrieveMemories now query o seen) st = st.
Proof.
  intros H.
  assert (E : fst (retrieveMemories now query o seen) = []).
  { rewrite retrieve_result by lia; now rewrite H. }
  split; [exact E |].
  cbn [retrieveMemories fst snd] in *; rewrite E; cbn [map].
  unfold updateAccessCounts; rewrite !touch_miss by (intros m _ []).
  now destruct st.
Qed.

Lemma retrieve_limit_zero_witness :
  fst (retrieveMemories 0 "alpha" (mkOptions (Some 0%Z) None None None) alphaStore) = [].
Proof.
  refine (proj1 (retrieve_limit_zero 0 "alpha" (mkOptions (Some 0%Z) None None None)
                   alphaStore alphaStore _)).
  reflexivity.
Defined.

(** ** Statistics *)




(** ** What a store keeps *)

(** The retention score of a record at the time of its creation is its
    importance or more, capped at 1. *)
Lemma retention_at_creation (m : MemoryItem) :
  (0 <= accessCount m)%Z ->
  Rmin 1 (importance m) <= calculateRetentionScore m (timestamp m)
  \/ importance m < 0.
Proof.
  intros Hacc.
  destruct (Rlt_le_dec (importance m) 0) as [Hneg | Himp]; [now right | left].
  unfold calculateRetentionScore; rewrite tag_factor_pos.
  rewrite Z.sub_diag.
  replace (- (IZR 0 / msPerDay) * 0.1) with 0 by (unfold msPerDay; lra).
  rewrite exp_0, Rmult_1_r.
  assert (0 <= IZR (accessCount m)) by now apply IZR_le.
  assert (0 <= Rmin 0.3 (IZR (accessCount m) * 0.05)) by (apply Rmin_glb; lra).
  apply Rle_min_compat_l.
  destruct (existsb _ _); nra.
Qed.

(** X22.  A store loses no record of value: an item that is no duplicate, is
    stored at the time of its creation and has an importance above 0.3 is
    in a tier after the call, even when the call runs a compression. *)
Theorem store_keeps_valuable (now : Z) (item : MemoryItem) (st : MemorySystemState) :
  (forall existing,
      In existing (shortTerm st) ->
      calculateSimilarity (content existing) (content item) <= 0.9) ->
  timestamp item = now -> 0.3 < importance item -> (0 <= accessCount item)%Z ->
  exists m', In m' (tiers (storeMemory now item st)) /\ annotated item m'.
Proof.
  intros Hfresh Hts Himp Hacc; apply isDuplicate_false in Hfresh.
  rewrite store_fresh by assumption.
  destruct (100 <? _)%Z eqn:Hfull.
  - apply Z.ltb_lt in Hfull.
    set (st1 := appendItem item st) in *.
    set (m' := withRetentionScore item (calculateRetentionScore item now)).
    assert (Hscore : scoreOf m' > 0.3).
    { unfold m', scoreOf; cbn [withRetentionScore retentionScore].
      destruct (retention_at_creation item Hacc) as [H | H]; [| lra].
      rewrite Hts in H.
      assert (0.3 < Rmin 1 (importance item)) by (apply Rmin_glb_lt; lra).
      lra. }
    assert (Hranked : In m' (retentionRanking now st1)).
    { apply sortWith_In, in_map_iff; exists item; split; [reflexivity |].
      unfold st1; cbn [appendItem shortTerm]; apply in_or_app; right; simpl; auto. }
    exists m'; split;
      [| right; exists (calculateRetentionScore item now); reflexivity].
    rewrite compress_large by lia; unfold tiers; cbn [shortTerm longTerm archive].
    fold st1.
    rewrite <- (firstn_skipn 35 (retentionRanking now st1)) in Hranked.
    apply in_app_or in Hranked; destruct Hranked as [H | H];
      [apply in_or_app; now left |].
    apply in_or_app; right.
    rewrite <- (firstn_skipn 20 (skipn 35 (retentionRanking now st1))) in H.
    apply in_app_or in H; destruct H as [H | H].
    + apply in_or_app; left; apply in_or_app; now right.
    + apply in_or_app; right; rewrite skipn_skipn in H; cbn [Nat.add] in H.
      apply sweepArchive_In; split.
      * apply in_or_app; right; apply filter_In; split; [assumption |].
        now apply Rgtb_true.
      * left; unfold m'; cbn [withRetentionScore timestamp]; rewrite Hts.
        unfold thirtyDays; lia.
  - exists item; split; [| now left].
    unfold tiers; cbn [appendItem shortTerm].
    apply in_or_app; left; apply in_or_app; right; simpl; auto.
Qed.

Lemma store_keeps_valuable_witness :
  exists m',
    In m' (tiers (storeMemory 0 (numbered 100) fullStore))
    /\ annotated (numbered 100) m'.
Proof.
  refine (store_keeps_valuable 0 (numbered 100) fullStore _ _ _ _).
  - apply isDuplicate_false, fullStore_fresh.
  - reflexivity.
  - simpl; lra.
  - simpl; lia.
Defined.

(** X23.  A record can be found right after it was stored: an item whose content
    is a string without escaped characters, stored at the time of its
    creation into a store with room for it, passes every threshold up to
    0.7 of a retrieval for that string in the twelve and a half days after,
    on the state that the store left. *)
Theorem stored_item_retrievable (now clock : Z) (query : string)
        (o : MemoryRetrievalOptions) (item : MemoryItem) (st : MemorySystemState) :
  (forall existing,
      In existing (shortTerm st) ->
      calculateSimilarity (content existing) (content item) <= 0.9) ->
  (List.length (shortTerm st) < 100)%nat ->
  content item = JStr query -> escape query = query ->
  0 <= importance item -> (0 <= accessCount item)%Z ->
  (clock - timestamp item <= freshFor)%Z ->
  optThreshold o <= 0.7 ->
  In (mkScored item (calculateRelevance clock query item))
     (scoredMemories clock query o (storeMemory now item st)).
Proof.
  intros Hfresh Hroom Hcontent Hesc Himp Hacc Hage Hthr.
  apply isDuplicate_false in Hfresh.
  rewrite store_fresh by assumption.
  cbn [appendItem shortTerm]; rewrite length_app; cbn [List.length].
  destruct (Z.ltb_spec 100 (Z.of_nat (List.length (shortTerm st) + 1))); [lia |].
  apply scoredMemories_In; cbn [memory relevanceScore]; repeat split.
  - unfold allMemories; cbn [shortTerm].
    apply in_or_app; left; apply in_or_app; right; simpl; auto.
  - assert (calculateRelevance clock query item >= 0.7); [| lra].
    apply relevance_fresh; try assumption.
    rewrite Hcontent; now apply includes_quoted.
Qed.

Lemma stored_item_retrievable_witness :
  In (mkScored alpha (calculateRelevance 1000 "alpha" alpha))
     (scoredMemories 1000 "alpha" defaultOptions
        (storeMemory 0 alpha (initialState defaultConfig))).
Proof.
  refine (stored_item_retrievable 0 1000 "alpha" defaultOptions alpha
            (initialState defaultConfig) _ _ _ _ _ _ _ _).
  - intros existing [].
  - simpl; lia.
  - reflexivity.
  - reflexivity.
  - simpl; lra.
  - simpl; lia.
  - unfold freshFor; simpl; lia.
  - unfold optThreshold; simpl; lra.
Defined.



(** ** The archive over a history *)

Lemma compress_keeps_important (now : Z) (st : MemorySystemState) (m : MemoryItem) :
  In m (archive st) -> importance m > 0.8 ->
  In m (archive (compressMemoriesInternal now st)).
Proof.
  intros Hin Himp.
  destruct (compress_archive now st) as (extra & -> & _).
  apply in_or_app; left; apply sweepArchive_In; auto.
Qed.

Lemma step_keeps_important (st st' : MemorySystemState) (m : MemoryItem) :
  step st st' -> In m (archive st) -> importance m > 0.8 -> In m (archive st').
Proof.
  intros [now item s | now query o seen s | now s] Hin Himp.
  - destruct (isDuplicate s item) eqn:E.
    + now rewrite store_duplicate_unchanged.
    + rewrite store_fresh by assumption.
      destruct (100 <? _)%Z; [now apply compress_keeps_important | exact Hin].
  - exact Hin.
  - now apply compress_keeps_important.
Qed.

(** X18.  An archived record of importance above 0.8 stays in the archive for
    good, unchanged: no sequence of stores, retrievals and compressions
    removes or alters it, however old it gets. *)
Theorem important_archive_permanent (st st' : MemorySystemState) (m : MemoryItem) :
  later st st' -> In m (archive st) -> importance m > 0.8 -> In m (archive st').
Proof.
  induction 1 as [| s s' _ IH Hstep]; intros Hin Himp; [assumption |].
  apply (step_keeps_important s s' m Hstep); auto.
Qed.

Lemma important_archive_permanent_witness :
  In oldHigh (archive (compressMemories (100 * day31) agedStore)).
Proof.
  refine (important_archive_permanent agedStore
            (compressMemories (100 * day31) agedStore) oldHigh _ _ _).
  - apply later_step with agedStore; [apply later_now | apply step_compress].
  - simpl; auto.
  - simpl; lra.
Defined.

(** ** What makes a duplicate *)

(** X3.  Two contents are duplicates (similarity above 0.9) only when their
    serializations are equal up to letter case, or have the same words, or
    have more than ten different words together. *)
Theorem duplicates_share_words (content1 content2 : JSON) :
  calculateSimilarity content1 content2 > 0.9 ->
  let words1 := splitWhitespace (toLowerCase (stringify content1)) in
  let words2 := splitWhitespace (toLowerCase (stringify content2)) in
  toLowerCase (stringify content1) = toLowerCase (stringify content2)
  \/ (forall word, In word words1 <-> In word words2)
  \/ (10 < List.length (nodup string_dec (words1 ++ words2)))%nat.
Proof.
  intros Hsim words1 words2; unfold calculateSimilarity in Hsim; cbv zeta in Hsim.
  destruct (String.eqb _ _) eqn:E; [left; now apply String.eqb_eq |].
  right; fold words1 words2 in Hsim.
  set (w1 := nodup string_dec words1) in *; set (w2 := nodup string_dec words2) in *.
  set (common := filter (fun x => inList x w2) w1) in *.
  set (all := nodup string_dec (w1 ++ w2)) in *.
  assert (Hall : forall x, In x all <-> In x words1 \/ In x words2).
  { intros x; unfold all, w1, w2; rewrite nodup_In, in_app_iff, !nodup_In; tauto. }
  assert (Hcommon : forall x, In x common <-> In x words1 /\ In x words2).
  { intros x; unfold common, w1, w2; rewrite filter_In, inList_In, !nodup_In; tauto. }
  assert (Hnd : NoDup common) by (apply NoDup_filter, NoDup_nodup).
  assert (Hincl : incl common all).
  { intros x Hx; apply Hall; apply Hcommon in Hx; tauto. }
  assert (Hle : (List.length common <= List.length all)%nat)
    by now apply NoDup_incl_length.
  assert (Hlen : List.length all
                 = List.length (nodup string_dec (words1 ++ words2))).
  { apply Permutation_length, NoDup_Permutation; try apply NoDup_nodup.
    intros x; rewrite nodup_In, in_app_iff; apply Hall. }
  destruct (Nat.eq_dec (List.length common) (List.length all)) as [Heq | Hne].
  - left; intros word.
    assert (Hback : incl all common)
      by (apply NoDup_length_incl; [assumption | lia | assumption]).
    split; intros H.
    + assert (In word all) by (apply Hall; auto).
      apply Hback, Hcommon in H0; tauto.
    + assert (In word all) by (apply Hall; auto).
      apply Hback, Hcommon in H0; tauto.
  - right; rewrite <- Hlen.
    assert (Hpos : (0 < List.length all)%nat).
    { destruct (List.length all) eqn:Ha; [| lia].
      exfalso; simpl in Hsim; unfold Rdiv in Hsim; rewrite Rinv_0 in Hsim; lra. }
    assert (Hn : 0 < INR (List.length all)) by now apply lt_0_INR.
    assert (Hc : INR (List.length common) <= INR (List.length all) - 1).
    { assert (H1 : (List.length common + 1 <= List.length all)%nat) by lia.
      apply le_INR in H1; rewrite plus_INR in H1; simpl in H1; lra. }
    assert (H9 : 0.9 * INR (List.length all) < INR (List.length common)).
    { apply Rmult_lt_reg_r with (/ INR (List.length all));
        [now apply Rinv_0_lt_compat |].
      rewrite Rmult_assoc, Rinv_r by lra; unfold Rdiv in Hsim; lra. }
    assert (H10 : 10 < INR (List.length all)) by lra.
    apply INR_lt; simpl; lra.
Qed.

Lemma duplicates_share_words_witness :
  toLowerCase (stringify (JStr "alpha")) = toLowerCase (stringify (JStr "ALPHA"))
  \/ (forall word,
         In word (splitWhitespace (toLowerCase (stringify (JStr "alpha"))))
         <-> In word (splitWhitespace (toLowerCase (stringify (JStr "ALPHA")))))
  \/ (10 < List.length
             (nodup string_dec
                (splitWhitespace (toLowerCase (stringify (JStr "alpha")))
                 ++ splitWhitespace (toLowerCase (stringify (JStr "ALPHA"))))))%nat.
Proof.
  refine (duplicates_share_words (JStr "alpha") (JStr "ALPHA") _).
  unfold calculateSimilarity; simpl; lra.
Defined.

Lemma cleanup_counter_grows_witness :
  (cyclicCleanup agedStore <= cyclicCleanup (compressMemories day31 agedStore))%Z.
Proof.
  refine (proj1 (proj2 cleanup_counter_grows) agedStore
            (compressMemories day31 agedStore) _).
  apply later_step with agedStore; [apply later_now | apply step_compress].
Defined.
